(** * The MP2 rate-monotonic scheduler (src/mp2/mp2_kernel_mod.c)

    A shallow embedding of the kernel module's scheduling core: the task
    registry, admission control, the run queue, the wake-up timer handler,
    the register / yield / de-register entry points, one cycle of the
    dispatcher thread, and the text of the status file.

    Modelling conventions.
    - [unsigned int] values are integers in [0, 2^32) and their arithmetic
      wraps modulo 2^32; [u64] / [unsigned long] values (jiffies, release
      times) wrap modulo 2^64; [long] is the 64-bit signed type of LP64.
    - A [struct mp2_task_struct] lives at an address obtained from [kmalloc];
      the registry list owns the records, while the run queue and
      [mp2_current] hold addresses of records.
    - The two intrusive [list_head] members are represented by membership in
      the lists [mp2_task_struct_list] and [mp2_rq].
    - The model is sequential: each entry point runs to completion, so
      [down_interruptible] always obtains the semaphore.
    - An operation returns [None] when the C code leaves the model: a
      division by zero, a dereference of a record that is not live,
      [list_del] of a node that is not linked, or [__list_add] of a node that
      is already linked (which ties the list into a cycle).
    - Calls into the rest of the kernel (scheduler class changes, wake-ups)
      are recorded, in program order, in [os_log].
    - The entry points take the fields that [mp2_write_proc] and [sscanf]
      extract from a request; of the request text, the cutting into fields
      at the head of [mp2_register_process] is modelled on its own.  The
      numeric conversion by [sscanf], the command switch of
      [mp2_write_proc], module unloading and a failing [kmalloc] are not
      modelled. *)

From Stdlib Require Import ZArith List Bool Lia Sorted.
From Stdlib Require Strings.Ascii Strings.String Numbers.DecimalString.
Import ListNotations.
Local Open Scope Z_scope.

(** ** Machine integers *)

Definition wrap_u32 (z : Z) : Z := z mod 2 ^ 32.
Definition wrap_u64 (z : Z) : Z := z mod 2 ^ 64.
Definition wrap_long (z : Z) : Z := (z + 2 ^ 63) mod 2 ^ 64 - 2 ^ 63.

Definition is_u64 (z : Z) : Prop := 0 <= z < 2 ^ 64.

(** ** Data model *)

(** [MP2_TASK_RUNNING], [MP2_TASK_READY], [MP2_TASK_SLEEPING] *)
Inductive mp2_task_state : Type :=
| MP2_TASK_RUNNING
| MP2_TASK_READY
| MP2_TASK_SLEEPING.

Definition state_code (st : mp2_task_state) : Z :=
  match st with
  | MP2_TASK_RUNNING => 0
  | MP2_TASK_READY => 1
  | MP2_TASK_SLEEPING => 2
  end.

Definition is_sleeping (st : mp2_task_state) : bool :=
  match st with MP2_TASK_SLEEPING => true | _ => false end.

(** Address of a [struct mp2_task_struct]. *)
Definition addr := nat.

(** [struct mp2_task_struct].  [self] is the address of the record;
    [wakeup_timer] is [Some e] while the timer is pending with expiry [e]
    (its handler argument is always the record's [pid]). *)
Record mp2_task_struct : Type := mk_task {
  self : addr;
  pid : Z;
  task : Z;
  wakeup_timer : option Z;
  C : Z;
  P : Z;
  next_period : Z;
  state : mp2_task_state
}.

Definition with_state (st : mp2_task_state) (t : mp2_task_struct) :=
  mk_task (self t) (pid t) (task t) (wakeup_timer t) (C t) (P t)
          (next_period t) st.

Definition with_timer (tm : option Z) (t : mp2_task_struct) :=
  mk_task (self t) (pid t) (task t) tm (C t) (P t) (next_period t) (state t).

Definition with_next_period (np : Z) (t : mp2_task_struct) :=
  mk_task (self t) (pid t) (task t) (wakeup_timer t) (C t) (P t) np (state t).

(** Scheduling policies of [sched_setscheduler]. *)
Inductive sched_policy : Type := SCHED_NORMAL | SCHED_FIFO.

(** Calls made into the rest of the kernel. The [Z] argument of the first
    three is the [struct task_struct *] handle stored in the record. *)
Inductive os_call : Type :=
| Sched_setscheduler (h : Z) (policy : sched_policy) (priority : Z)
| Set_task_uninterruptible (h : Z)
| Wake_up_process (h : Z)
| Wake_up_waitqueue
| Schedule.

(** The module's global variables, the clock and the allocator. *)
Record mp2 : Type := mk_mp2 {
  jiffies : Z;
  mp2_task_struct_list : list mp2_task_struct;
  mp2_rq : list addr;
  mp2_current : option addr;
  kmalloc_next : addr;
  os_log : list os_call
}.

Definition set_tasks (l : list mp2_task_struct) (s : mp2) :=
  mk_mp2 (jiffies s) l (mp2_rq s) (mp2_current s) (kmalloc_next s) (os_log s).

Definition set_rq (q : list addr) (s : mp2) :=
  mk_mp2 (jiffies s) (mp2_task_struct_list s) q (mp2_current s)
         (kmalloc_next s) (os_log s).

Definition set_current (c : option addr) (s : mp2) :=
  mk_mp2 (jiffies s) (mp2_task_struct_list s) (mp2_rq s) c
         (kmalloc_next s) (os_log s).

Definition set_jiffies (j : Z) (s : mp2) :=
  mk_mp2 j (mp2_task_struct_list s) (mp2_rq s) (mp2_current s)
         (kmalloc_next s) (os_log s).

Definition emit (c : os_call) (s : mp2) :=
  mk_mp2 (jiffies s) (mp2_task_struct_list s) (mp2_rq s) (mp2_current s)
         (kmalloc_next s) (os_log s ++ [c]).

(** State after [mp2_init_module], loaded when the clock reads [j0]. *)
Definition mp2_init_module (j0 : Z) : mp2 := mk_mp2 j0 [] [] None 0%nat [].

Notation "x <- e ;; k" :=
  (match e with Some x => k | None => None end)
  (at level 60, e at next level, right associativity).

(** ** Access to records through their address *)

Definition at_addr (a : addr) (t : mp2_task_struct) : bool := Nat.eqb (self t) a.

(** [*a]: the live record at address [a]. *)
Definition deref (s : mp2) (a : addr) : option mp2_task_struct :=
  find (at_addr a) (mp2_task_struct_list s).

(** [a->field = ...]: apply [f] to the record at address [a]. *)
Definition update_task (a : addr) (f : mp2_task_struct -> mp2_task_struct)
    (l : list mp2_task_struct) : list mp2_task_struct :=
  map (fun t => if at_addr a t then f t else t) l.

Definition store (a : addr) (f : mp2_task_struct -> mp2_task_struct) (s : mp2) :=
  set_tasks (update_task a f (mp2_task_struct_list s)) s.

Definition linked (a : addr) (q : list addr) : bool := existsb (Nat.eqb a) q.

(** ** Run queue *)

(** The loop of [mp2_add_task_to_rq]: walk the queue, stop in front of the
    first entry whose period is strictly greater than [tmp]'s, and link
    [tmp] there. *)
Fixpoint rq_insert (mem : addr -> option mp2_task_struct) (tmp_P : Z)
    (tmp : addr) (q : list addr) : option (list addr) :=
  match q with
  | [] => Some [tmp]
  | curr :: rest =>
      curr_task <- mem curr ;;
      if P curr_task >? tmp_P then Some (tmp :: curr :: rest)
      else (rest' <- rq_insert mem tmp_P tmp rest ;; Some (curr :: rest'))
  end.

Definition mp2_add_task_to_rq (tmp : addr) (s : mp2) : option mp2 :=
  t <- deref s tmp ;;
  let s1 := store tmp (with_state MP2_TASK_READY) s in
  if linked tmp (mp2_rq s1) then None
  else (q <- rq_insert (deref s1) (P t) tmp (mp2_rq s1) ;; Some (set_rq q s1)).

Definition rq_unlink (tmp : addr) (q : list addr) : list addr :=
  filter (fun a => negb (Nat.eqb tmp a)) q.

Definition mp2_remove_task_from_rq (tmp : addr) (s : mp2) : option mp2 :=
  if linked tmp (mp2_rq s) then Some (set_rq (rq_unlink tmp (mp2_rq s)) s)
  else None.

(** ** Registry lookup and the timer handler *)

Definition find_mp2_task_by_pid (p : Z) (s : mp2) : option mp2_task_struct :=
  find (fun t => pid t =? p) (mp2_task_struct_list s).

Definition wakeup_timer_handler (p : Z) (s : mp2) : option mp2 :=
  match find_mp2_task_by_pid p s with
  | None => Some s
  | Some tmp =>
      let s1 := store (self tmp) (with_state MP2_TASK_READY) s in
      s2 <- mp2_add_task_to_rq (self tmp) s1 ;;
      Some (emit Wake_up_waitqueue s2)
  end.

(** ** Admission control *)

(** [((c*1000)/p)] in [unsigned int] arithmetic. *)
Definition scaled_utilization (c p : Z) : option Z :=
  if p =? 0 then None else Some (wrap_u32 (c * 1000) / p).

(** The [list_for_each_entry] loop accumulating into the [long] total. *)
Fixpoint add_utilizations (l : list mp2_task_struct) (total : Z) : option Z :=
  match l with
  | [] => Some total
  | tmp :: rest =>
      u <- scaled_utilization (C tmp) (P tmp) ;;
      add_utilizations rest (wrap_long (total + u))
  end.

Definition mp2_admission_control (c p : Z) (s : mp2) : option bool :=
  u0 <- scaled_utilization c p ;;
  new_total_utilization <- add_utilizations (mp2_task_struct_list s) u0 ;;
  if new_total_utilization >? 693 then Some false else Some true.

(** ** The entry points and the dispatcher *)

Section Kernel.

(** Kernel facilities used by the module and declared outside it:
    the process lookup behind [find_task_by_pid], the conversion
    [msecs_to_jiffies] and the constant [MAX_USER_RT_PRIO]. *)
Variable find_task_by_pid : Z -> option Z.
Variable msecs_to_jiffies : Z -> Z.
Variable MAX_USER_RT_PRIO : Z.

Definition mp2_set_sched_priority (tmp : mp2_task_struct)
    (policy : sched_policy) (priority : Z) (s : mp2) : mp2 :=
  emit (Sched_setscheduler (task tmp) policy priority) s.

(** The record that [mp2_register_process] fills in for a request whose
    process handle is [h]: the parsed fields, the release time
    [jiffies + msecs_to_jiffies(P)], a timer that is set up but not
    pending, and the state SLEEPING. *)
Definition registered_record (p period comp h : Z) (s : mp2) : mp2_task_struct :=
  mk_task (kmalloc_next s) p h None comp period
          (wrap_u64 (jiffies s + msecs_to_jiffies period)) MP2_TASK_SLEEPING.

(** [mp2_register_process], on the three parsed fields of the request.
    The record is allocated first and freed again on both failure paths,
    so the allocator only advances on success. *)
Definition mp2_register_process (p period comp : Z) (s : mp2) : option mp2 :=
  admitted <- mp2_admission_control comp period s ;;
  if negb admitted then Some s
  else
    match find_task_by_pid p with
    | None => Some s
    | Some h =>
        let new_task := registered_record p period comp h s in
        Some (mk_mp2 (jiffies s) (mp2_task_struct_list s ++ [new_task])
                     (mp2_rq s) (mp2_current s) (S (kmalloc_next s))
                     (os_log s))
    end.

Definition mp2_deregister_process (p : Z) (s : mp2) : option mp2 :=
  match find_mp2_task_by_pid p s with
  | Some tmp =>
      s1 <- mp2_remove_task_from_rq (self tmp) s ;;
      let s2 :=
        set_tasks (filter (fun t => negb (at_addr (self tmp) t))
                          (mp2_task_struct_list s1)) s1 in
      let s3 :=
        match mp2_current s2 with
        | Some cur =>
            if Nat.eqb (self tmp) cur
            then set_current None (mp2_set_sched_priority tmp SCHED_NORMAL 0 s2)
            else s2
        | None => s2
        end in
      Some (emit Wake_up_waitqueue s3)
  | None => Some s
  end.

(** The lookup at the head of [mp2_yield_process]: the current task when
    its pid matches, otherwise the first registry entry with that pid. *)
Definition yield_lookup (p : Z) (s : mp2) : option (option mp2_task_struct) :=
  match mp2_current s with
  | Some cur =>
      cur_task <- deref s cur ;;
      if pid cur_task =? p then Some (Some cur_task)
      else Some (find_mp2_task_by_pid p s)
  | None => Some (find_mp2_task_by_pid p s)
  end.

(** Branch taken while [jiffies < tmp->next_period]. *)
Definition yield_before_release (tmp : mp2_task_struct) (s : mp2) : option mp2 :=
  let release_time := wrap_u64 (next_period tmp - jiffies s) in
  let s1 := store (self tmp) (with_state MP2_TASK_SLEEPING) s in
  let s2 :=
    store (self tmp) (with_timer (Some (wrap_u64 (jiffies s + release_time)))) s1 in
  match mp2_current s2 with
  | Some cur =>
      cur_task <- deref s2 cur ;;
      if pid cur_task =? pid tmp then
        s3 <- mp2_remove_task_from_rq (self tmp) s2 ;;
        Some (emit Wake_up_waitqueue (set_current None s3))
      else Some s2
  | None => Some s2
  end.

(** Branch taken once the release time has been reached. *)
Definition yield_after_release (tmp : mp2_task_struct) (s : mp2) : option mp2 :=
  s1 <- (if is_sleeping (state tmp)
         then mp2_add_task_to_rq (self tmp)
                (store (self tmp) (with_state MP2_TASK_READY) s)
         else Some s) ;;
  Some (set_current None (emit Wake_up_waitqueue s1)).

Definition mp2_yield_process (p : Z) (s : mp2) : option mp2 :=
  found <- yield_lookup p s ;;
  match found with
  | None => Some s
  | Some tmp =>
      s' <- (if jiffies s <? next_period tmp
             then yield_before_release tmp s
             else yield_after_release tmp s) ;;
      Some (emit Schedule
             (emit (Set_task_uninterruptible (task tmp))
                (mp2_set_sched_priority tmp SCHED_NORMAL 0 s')))
  end.

(** The tail of a dispatcher cycle: wake the selected task, raise its
    priority, make it current, mark it running, advance its release time. *)
Definition dispatch (tmp : addr) (s : mp2) : option mp2 :=
  t <- deref s tmp ;;
  let s1 := emit (Wake_up_process (task t)) s in
  let s2 := mp2_set_sched_priority t SCHED_FIFO (MAX_USER_RT_PRIO - 1) s1 in
  let s3 := set_current (Some tmp) s2 in
  let s4 := store tmp (with_state MP2_TASK_RUNNING) s3 in
  Some (store tmp
          (fun c => with_next_period
                      (wrap_u64 (next_period c + msecs_to_jiffies (P c))) c)
          s4).

(** What [dispatch] leaves in the record it selects. *)
Definition dispatched_record (t : mp2_task_struct) : mp2_task_struct :=
  with_next_period (wrap_u64 (next_period t + msecs_to_jiffies (P t)))
                   (with_state MP2_TASK_RUNNING t).

(** One iteration of the loop of [mp2_sched_kthread_fn] after the thread
    has been woken and found that it need not stop. *)
Definition mp2_sched_kthread_cycle (s : mp2) : option mp2 :=
  match mp2_rq s with
  | [] => Some s
  | first :: _ =>
      tmp <- deref s first ;;
      match mp2_current s with
      | Some cur =>
          cur_task <- deref s cur ;;
          if P cur_task >? P tmp then
            let s1 := mp2_set_sched_priority cur_task SCHED_NORMAL 0 s in
            let s2 := emit (Set_task_uninterruptible (task cur_task)) s1 in
            let s3 := store cur (with_state MP2_TASK_READY) s2 in
            dispatch first (set_current None s3)
          else Some s
      | None => dispatch first s
      end
  end.

(** ** Timers and the transition system *)

(** The timer of the record at [a] is pending and due. *)
Definition timer_expired (a : addr) (s : mp2) : bool :=
  match deref s a with
  | Some t =>
      match wakeup_timer t with
      | Some e => e <=? jiffies s
      | None => false
      end
  | None => false
  end.

(** Expiry of the timer of the record at [a]: the timer is no longer
    pending and its handler runs with the record's pid. *)
Definition run_timer (a : addr) (s : mp2) : option mp2 :=
  t <- deref s a ;;
  wakeup_timer_handler (pid t) (store a (with_timer None) s).

Inductive event : Type :=
| Register (p period comp : Z)
| Yield (p : Z)
| Deregister (p : Z)
| Timer (a : addr)
| Dispatcher
| Tick.

(** [None]: the event is not enabled in [s] (a timer that is not due) or
    the code leaves the model. *)
Definition mp2_exec (e : event) (s : mp2) : option mp2 :=
  match e with
  | Register p period comp => mp2_register_process p period comp s
  | Yield p => mp2_yield_process p s
  | Deregister p => mp2_deregister_process p s
  | Timer a => if timer_expired a s then run_timer a s else None
  | Dispatcher => mp2_sched_kthread_cycle s
  | Tick => Some (set_jiffies (wrap_u64 (jiffies s + 1)) s)
  end.

Fixpoint mp2_run (es : list event) (s : mp2) : option mp2 :=
  match es with
  | [] => Some s
  | e :: es' => s' <- mp2_exec e s ;; mp2_run es' s'
  end.

Inductive reachable : mp2 -> Prop :=
| reachable_init : forall j0, is_u64 j0 -> reachable (mp2_init_module j0)
| reachable_step : forall s e s',
    reachable s -> mp2_exec e s = Some s' -> reachable s'.

(** ** Sequences of run-queue operations *)




End Kernel.

(** ** Notions used in the statements *)





(** The utilization as the specification writes it, over the integers
    with truncating division: the sum of [1000*C_i/P_i] over the registry,
    and [U], which adds [1000*C/P] for the candidate. *)
Definition registry_utilization (l : list mp2_task_struct) : Z :=
  fold_right (fun t acc => 1000 * C t / P t + acc) 0 l.

Definition spec_utilization (c p : Z) (l : list mp2_task_struct) : Z :=
  1000 * c / p + registry_utilization l.

(** A record whose fields are in the range where the [unsigned int]
    product [C*1000] does not wrap and the period is not zero. *)
Definition exact_range (c p : Z) : Prop :=
  0 <= c /\ c * 1000 < 2 ^ 32 /\ 0 < p.

(** Consistency between the registry, the run queue and [mp2_current],
    stated on the four state components it concerns: record addresses are
    distinct and below the allocator mark, queued addresses are below the
    allocator mark, every READY record is linked in the run queue, and the
    current task is linked in the run queue with state RUNNING. *)
Definition consistent (l : list mp2_task_struct) (q : list addr)
    (c : option addr) (n : addr) : Prop :=
  NoDup (map self l) /\
  (forall t, In t l -> (self t < n)%nat) /\
  (forall a, In a q -> (a < n)%nat) /\
  (forall t, In t l -> state t = MP2_TASK_READY -> In (self t) q) /\
  (forall a, c = Some a ->
     In a q /\
     forall t, In t l -> self t = a -> state t = MP2_TASK_RUNNING).

Definition mp2_consistent (s : mp2) : Prop :=
  consistent (mp2_task_struct_list s) (mp2_rq s) (mp2_current s)
             (kmalloc_next s).



(** Number of registry records carrying a given pid. *)
Definition records_with_pid (p : Z) (s : mp2) : nat :=
  length (filter (fun t => pid t =? p) (mp2_task_struct_list s)).

(** ** A sample kernel configuration and sample request sequences *)

(** Processes 1 to 99 exist; HZ = 1000, so a jiffy is a millisecond. *)
Definition sample_find_task_by_pid (p : Z) : option Z :=
  if (0 <? p) && (p <? 100) then Some (5000 + p) else None.

Definition sample_msecs_to_jiffies (m : Z) : Z := m.

Definition sample_MAX_USER_RT_PRIO : Z := 100.

Definition sample_exec : event -> mp2 -> option mp2 :=
  mp2_exec sample_find_task_by_pid sample_msecs_to_jiffies
           sample_MAX_USER_RT_PRIO.

Definition sample_run : list event -> mp2 -> option mp2 :=
  mp2_run sample_find_task_by_pid sample_msecs_to_jiffies
          sample_MAX_USER_RT_PRIO.

(** Three registered, sleeping tasks and an empty run queue: the state
    reached from a fresh module by three accepted registrations. *)
Definition three_tasks_registered : list event :=
  [Register 1 50 10; Register 2 20 5; Register 3 50 1].

Definition three_tasks : mp2 :=
  mk_mp2 0
    [mk_task 0%nat 1 5001 None 10 50 50 MP2_TASK_SLEEPING;
     mk_task 1%nat 2 5002 None 5 20 20 MP2_TASK_SLEEPING;
     mk_task 2%nat 3 5003 None 1 50 50 MP2_TASK_SLEEPING]
    [] None 3%nat [].

(** Task 1 (period 50) registers, yields, and is released by its timer. *)
Definition one_task_released : list event :=
  [Register 1 50 10; Yield 1] ++ repeat Tick 50 ++ [Timer 0%nat].

(** Task 1 (period 50) is running when task 2 (period 20) is released. *)
Definition short_period_released : list event :=
  [Register 1 50 10; Yield 1] ++ repeat Tick 40 ++
  [Register 2 20 5; Yield 2] ++ repeat Tick 10 ++
  [Timer 0%nat; Dispatcher] ++ repeat Tick 10 ++ [Timer 1%nat].

(** Task 1 (period 50) is running when task 2 (period 20) registers; 20
    jiffies later task 2 has not yet yielded. *)
Definition late_first_yield : list event :=
  [Register 1 50 10; Yield 1] ++ repeat Tick 50 ++
  [Timer 0%nat; Dispatcher; Register 2 20 5] ++ repeat Tick 20.

(** The states these sequences lead to from a module loaded at jiffies 0. *)
Definition task1_released : mp2 :=
  mk_mp2 50
    [mk_task 0%nat 1 5001 None 10 50 50 MP2_TASK_READY]
    [0%nat] None 1%nat
    [Sched_setscheduler 5001 SCHED_NORMAL 0; Set_task_uninterruptible 5001;
     Schedule; Wake_up_waitqueue].

Definition task1_running_task2_released : mp2 :=
  mk_mp2 60
    [mk_task 0%nat 1 5001 None 10 50 100 MP2_TASK_RUNNING;
     mk_task 1%nat 2 5002 None 5 20 60 MP2_TASK_READY]
    [1%nat; 0%nat] (Some 0%nat) 2%nat
    [Sched_setscheduler 5001 SCHED_NORMAL 0; Set_task_uninterruptible 5001;
     Schedule;
     Sched_setscheduler 5002 SCHED_NORMAL 0; Set_task_uninterruptible 5002;
     Schedule; Wake_up_waitqueue;
     Wake_up_process 5001; Sched_setscheduler 5001 SCHED_FIFO 99;
     Wake_up_waitqueue].

Definition task1_running_task2_late : mp2 :=
  mk_mp2 70
    [mk_task 0%nat 1 5001 None 10 50 100 MP2_TASK_RUNNING;
     mk_task 1%nat 2 5002 None 5 20 70 MP2_TASK_SLEEPING]
    [0%nat] (Some 0%nat) 2%nat
    [Sched_setscheduler 5001 SCHED_NORMAL 0; Set_task_uninterruptible 5001;
     Schedule; Wake_up_waitqueue;
     Wake_up_process 5001; Sched_setscheduler 5001 SCHED_FIFO 99].

(** Task 2 (period 20) has preempted task 1 (period 50): the state one
    dispatcher cycle after [task1_running_task2_released]. *)
Definition task2_running_task1_preempted : mp2 :=
  mk_mp2 60
    [mk_task 0%nat 1 5001 None 10 50 100 MP2_TASK_READY;
     mk_task 1%nat 2 5002 None 5 20 80 MP2_TASK_RUNNING]
    [1%nat; 0%nat] (Some 1%nat) 2%nat
    [Sched_setscheduler 5001 SCHED_NORMAL 0; Set_task_uninterruptible 5001;
     Schedule;
     Sched_setscheduler 5002 SCHED_NORMAL 0; Set_task_uninterruptible 5002;
     Schedule; Wake_up_waitqueue;
     Wake_up_process 5001; Sched_setscheduler 5001 SCHED_FIFO 99;
     Wake_up_waitqueue;
     Sched_setscheduler 5001 SCHED_NORMAL 0; Set_task_uninterruptible 5001;
     Wake_up_process 5002; Sched_setscheduler 5002 SCHED_FIFO 99].




(** ** Further notions: integrity, request ranges, identity of records *)

(** Every address in the run queue occurs there once and is the address
    of a live record. *)
Definition rq_intact (s : mp2) : Prop :=
  NoDup (mp2_rq s) /\ forall a, In a (mp2_rq s) -> deref s a <> None.

(** Requests whose numeric fields are in the range where the arithmetic
    of admission control is exact. *)
Definition request_in_range (e : event) : Prop :=
  match e with
  | Register _ period comp => exact_range comp period
  | _ => True
  end.

(** The events that neither register nor de-register a task. *)
Definition scheduling_event (e : event) : bool :=
  match e with
  | Register _ _ _ | Deregister _ => false
  | _ => true
  end.

(** The fields of a record that are written once, at registration. *)
Definition identity (t : mp2_task_struct) : addr * Z * Z * Z * Z :=
  (self t, pid t, task t, C t, P t).

(** No registry record carries pid [p]. *)
Definition unregistered (p : Z) (s : mp2) : Prop :=
  Forall (fun t => pid t <> p) (mp2_task_struct_list s).

(** ** The status file and the text of a request *)

(** [int], as the loop counter of [mp2_read_proc]. *)
Definition wrap_int (z : Z) : Z := (z + 2 ^ 31) mod 2 ^ 32 - 2 ^ 31.
Definition INT_MAX : Z := 2 ^ 31 - 1.

Section Status_text.

Import Ascii String DecimalString.

Definition newline : ascii := "010"%char.
Definition NUL : ascii := "000"%char.
Definition comma : ascii := ","%char.
Definition full_stop : ascii := "."%char.

(** The conversions [%u] of an [unsigned int] and [%d] of an [int]. *)
Definition format_u (z : Z) : list ascii :=
  list_ascii_of_string
    (NilZero.string_of_uint (N.to_uint (Z.to_N (wrap_u32 z)))).

Definition format_d (z : Z) : list ascii :=
  list_ascii_of_string (NilZero.string_of_int (Z.to_int z)).

(** The four format strings of [mp2_read_proc], filled in. *)
Definition process_line (i : Z) : list ascii :=
  list_ascii_of_string "Process # " ++ format_d i ++
  list_ascii_of_string " details:" ++ [newline].

Definition pid_line (p : Z) : list ascii :=
  list_ascii_of_string "PID:" ++ format_u p ++ [newline].

Definition period_line (p : Z) : list ascii :=
  list_ascii_of_string "P:" ++ format_u p ++ [newline].

Definition computation_line (c : Z) : list ascii :=
  list_ascii_of_string "C:" ++ format_u c ++ [newline].

(** A registration request as the user-space library writes it. *)
Definition sample_request : list ascii :=
  list_ascii_of_string "R, 17, 50, 10.".

Definition sample_request_fields : list ascii * list ascii * list ascii :=
  (list_ascii_of_string "17", list_ascii_of_string "50",
   list_ascii_of_string "10").

Definition blank : ascii := " "%char.

(** The same request without the blank after each comma, and the fields
    that are cut out of it. *)
Definition sample_request_unspaced : list ascii :=
  list_ascii_of_string "R,17,50,10.".

Definition sample_request_unspaced_fields
    : list ascii * list ascii * list ascii :=
  (list_ascii_of_string "7", list_ascii_of_string "0",
   list_ascii_of_string "0").

End Status_text.

Section Proc_read.

(** Size of the buffer that the proc layer hands to [mp2_read_proc] as
    [page]. *)
Variable PAGE_SIZE : Z.

(** [len += sprintf(page+len, ...)], where [len] is the length of what has
    been written so far.  [sprintf] stores the text and a terminating NUL;
    [None] when that does not fit the page or [len] leaves the range of
    [int]. *)
Definition sprintf (text page : list Ascii.ascii) : option (list Ascii.ascii) :=
  let len := Z.of_nat (length page) + Z.of_nat (length text) in
  if (len <? PAGE_SIZE) && (len <=? INT_MAX) then Some (page ++ text)
  else None.

(** The [list_for_each_entry] loop of [mp2_read_proc], with its counter. *)
Fixpoint read_entries (l : list mp2_task_struct) (i : Z)
    (page : list Ascii.ascii) : option (list Ascii.ascii) :=
  match l with
  | [] => Some page
  | tmp :: rest =>
      page1 <- sprintf (process_line i) page ;;
      page2 <- sprintf (pid_line (pid tmp)) page1 ;;
      page3 <- sprintf (period_line (P tmp)) page2 ;;
      page4 <- sprintf (computation_line (C tmp)) page3 ;;
      read_entries rest (wrap_int (i + 1)) page4
  end.

(** [mp2_read_proc]: what is written into [page], and the returned
    length.  [off], [count] and [eof] are not looked at. *)
Definition mp2_read_proc (s : mp2) : option (list Ascii.ascii * Z) :=
  page <- read_entries (mp2_task_struct_list s) 1 [] ;;
  Some (page, Z.of_nat (length page)).

End Proc_read.

(** [strchr] on the bytes that [copy_from_user] has stored in
    [user_data]: the offset of the first occurrence of [c].  [None] when
    the scan meets a NUL first (the C function returns NULL, which the
    caller writes through) or runs off the copied bytes into the part of
    the buffer that was never written. *)
Fixpoint strchr (s : list Ascii.ascii) (c : Ascii.ascii) : option nat :=
  match s with
  | [] => None
  | x :: rest =>
      if Ascii.eqb x c then Some 0%nat
      else if Ascii.eqb x NUL then None
      else i <- strchr rest c ;; Some (S i)
  end.

(** The head of [mp2_register_process]: the three NUL-terminated strings
    that it cuts out of the request and hands to [sscanf] for the pid, the
    period and the computation time. *)
Definition register_fields (user_data : list Ascii.ascii)
    : option (list Ascii.ascii * list Ascii.ascii * list Ascii.ascii) :=
  let user_data1 := skipn 3 user_data in
  tmp1 <- strchr user_data1 comma ;;
  let user_data2 := skipn (tmp1 + 2) user_data1 in
  tmp2 <- strchr user_data2 comma ;;
  let user_data3 := skipn (tmp2 + 2) user_data2 in
  tmp3 <- strchr user_data3 full_stop ;;
  Some (firstn tmp1 user_data1, firstn tmp2 user_data2,
        firstn tmp3 user_data3).

(** ** Records and addresses *)


Lemma at_addr_true a t : at_addr a t = true <-> self t = a.
Proof. unfold at_addr. apply Nat.eqb_eq. Qed.

Lemma linked_In a q : linked a q = true <-> In a q.
Proof.
  unfold linked. rewrite existsb_exists. split.
  - intros (x & Hx & E). apply Nat.eqb_eq in E. now subst.
  - intros H. exists a. split; [assumption | apply Nat.eqb_refl].
Qed.

Lemma linked_false a q : linked a q = false <-> ~ In a q.
Proof.
  rewrite <- linked_In. destruct (linked a q); split.
  - discriminate.
  - intros H. now elim H.
  - intros _ H. discriminate.
  - reflexivity.
Qed.

Lemma find_at_addr_self a l t : find (at_addr a) l = Some t -> self t = a.
Proof. intros H. apply find_some in H. now apply at_addr_true. Qed.

Lemma deref_self s a t : deref s a = Some t -> self t = a.
Proof. apply find_at_addr_self. Qed.

Lemma deref_In s a t : deref s a = Some t -> In t (mp2_task_struct_list s).
Proof. intros H. now apply find_some in H. Qed.

Lemma find_app_some {A} (f : A -> bool) l1 l2 x :
  find f l1 = Some x -> find f (l1 ++ l2) = Some x.
Proof.
  induction l1 as [| y l1 IH]; simpl; [discriminate |].
  destruct (f y); auto.
Qed.

Lemma find_app_none {A} (f : A -> bool) l1 l2 :
  find f l1 = None -> find f (l1 ++ l2) = find f l2.
Proof.
  induction l1 as [| y l1 IH]; simpl; [reflexivity |].
  destruct (f y); [discriminate | exact IH].
Qed.

Lemma find_filter_other a b l :
  a <> b ->
  find (at_addr a) (filter (fun t => negb (at_addr b t)) l)
  = find (at_addr a) l.
Proof.
  intros Hab. induction l as [| t l IH]; simpl; [reflexivity |].
  destruct (at_addr b t) eqn:Eb; simpl.
  - destruct (at_addr a t) eqn:Ea; [| exact IH].
    apply at_addr_true in Eb, Ea. congruence.
  - now rewrite IH.
Qed.

Lemma find_filter_same a l :
  find (at_addr a) (filter (fun t => negb (at_addr a t)) l) = None.
Proof.
  induction l as [| t l IH]; simpl; [reflexivity |].
  destruct (at_addr a t) eqn:Ea; simpl; [exact IH |].
  now rewrite Ea.
Qed.

(** Reading through an address after a write through an address. *)
Lemma find_update_task a b f l :
  (forall t, self (f t) = self t) ->
  find (at_addr b) (update_task a f l) =
  if Nat.eqb a b then option_map f (find (at_addr b) l)
  else find (at_addr b) l.
Proof.
  intros Hf. induction l as [| t l IH]; simpl.
  - now destruct (Nat.eqb a b).
  - assert (Hb : at_addr b (if at_addr a t then f t else t) = at_addr b t).
    { destruct (at_addr a t); [| reflexivity]. unfold at_addr. now rewrite Hf. }
    rewrite Hb, IH. clear Hb IH.
    destruct (at_addr b t) eqn:Eb; [| reflexivity].
    destruct (at_addr a t) eqn:Ea; destruct (Nat.eqb a b) eqn:Eab;
      try reflexivity; exfalso.
    + apply at_addr_true in Eb, Ea. apply Nat.eqb_neq in Eab. congruence.
    + apply at_addr_true in Eb. apply Nat.eqb_eq in Eab. subst.
      unfold at_addr in Ea. rewrite Nat.eqb_refl in Ea. discriminate.
Qed.

Lemma deref_store a b f s :
  (forall t, self (f t) = self t) ->
  deref (store a f s) b =
  if Nat.eqb a b then option_map f (deref s b) else deref s b.
Proof. intros Hf. unfold deref, store. simpl. now apply find_update_task. Qed.

Lemma In_update_task a f l t' :
  In t' (update_task a f l) ->
  exists t, In t l /\ t' = (if at_addr a t then f t else t).
Proof.
  unfold update_task. rewrite in_map_iff. intros (t & E & H). eauto.
Qed.


(** ** The run queue: ordered insertion *)





(** Where the loop of [mp2_add_task_to_rq] links the new node: after a
    prefix of entries whose period is not greater, in front of the first
    entry whose period is greater. *)
Lemma rq_insert_split mem p tmp q q' :
  rq_insert mem p tmp q = Some q' ->
  exists q1 q2,
    q = q1 ++ q2 /\ q' = q1 ++ tmp :: q2 /\
    Forall (fun a => exists t, mem a = Some t /\ P t <= p) q1 /\
    (forall b r, q2 = b :: r -> exists t, mem b = Some t /\ p < P t).
Proof.
  revert q'. induction q as [| curr rest IH]; simpl; intros q' H.
  - inversion H; subst. exists [], []. repeat split; auto. discriminate.
  - destruct (mem curr) as [ct |] eqn:Ec; [| discriminate].
    destruct (P ct >? p) eqn:Ep.
    + inversion H; subst. exists [], (curr :: rest).
      repeat split; auto. intros b r E. inversion E; subst.
      exists ct. split; [assumption | lia].
    + destruct (rq_insert mem p tmp rest) as [rest' |] eqn:Er; [| discriminate].
      inversion H; subst.
      destruct (IH _ eq_refl) as (q1 & q2 & E1 & E2 & F & G).
      exists (curr :: q1), q2. subst. repeat split; auto.
      constructor; [| assumption]. exists ct. split; [assumption | lia].
Qed.








(** ** Admission control and registration *)

Lemma wrap_long_small z : - 2 ^ 63 <= z < 2 ^ 63 -> wrap_long z = z.
Proof. intros H. unfold wrap_long. rewrite Z.mod_small; lia. Qed.

Lemma scaled_utilization_exact c p :
  exact_range c p -> scaled_utilization c p = Some (1000 * c / p).
Proof.
  intros (Hc & Hw & Hp). unfold scaled_utilization, wrap_u32.
  destruct (p =? 0) eqn:E; [apply Z.eqb_eq in E; lia |].
  rewrite Z.mod_small by lia. now rewrite Z.mul_comm.
Qed.

Lemma exact_term_nonneg c p : exact_range c p -> 0 <= 1000 * c / p.
Proof. intros (Hc & _ & Hp). apply Z.div_pos; lia. Qed.

Lemma registry_utilization_cons t l :
  registry_utilization (t :: l) = 1000 * C t / P t + registry_utilization l.
Proof. reflexivity. Qed.

Lemma registry_utilization_nonneg l :
  Forall (fun t => exact_range (C t) (P t)) l -> 0 <= registry_utilization l.
Proof.
  induction 1 as [| t l Ht _ IH].
  - unfold registry_utilization. simpl. lia.
  - rewrite registry_utilization_cons.
    apply exact_term_nonneg in Ht. lia.
Qed.

Lemma add_utilizations_exact l : forall total,
  Forall (fun t => exact_range (C t) (P t)) l ->
  0 <= total -> total + registry_utilization l < 2 ^ 63 ->
  add_utilizations l total = Some (total + registry_utilization l).
Proof.
  induction l as [| t l IH]; intros total Hl H0 Hb.
  - unfold registry_utilization. simpl. f_equal. lia.
  - rewrite registry_utilization_cons in *.
    apply Forall_cons_iff in Hl. destruct Hl as [Ht Hl].
    cbn [add_utilizations].
    rewrite (scaled_utilization_exact _ _ Ht).
    pose proof (exact_term_nonneg _ _ Ht) as Hn.
    pose proof (registry_utilization_nonneg l Hl) as Hr.
    rewrite wrap_long_small by lia.
    rewrite IH by (try assumption; lia). f_equal. lia.
Qed.

Lemma mp2_admission_control_exact c p s :
  exact_range c p ->
  Forall (fun t => exact_range (C t) (P t)) (mp2_task_struct_list s) ->
  spec_utilization c p (mp2_task_struct_list s) < 2 ^ 63 ->
  mp2_admission_control c p s =
  Some (spec_utilization c p (mp2_task_struct_list s) <=? 693).
Proof.
  intros Hc Hl Hb. unfold mp2_admission_control.
  rewrite (scaled_utilization_exact _ _ Hc).
  unfold spec_utilization in *.
  rewrite add_utilizations_exact;
    [| assumption | now apply exact_term_nonneg | assumption].
  destruct (_ >? 693) eqn:E; f_equal; symmetry.
  - apply Z.leb_gt. lia.
  - apply Z.leb_le. lia.
Qed.

Section Admission_properties.

Variable find_task_by_pid : Z -> option Z.
Variable msecs_to_jiffies : Z -> Z.

(** C1 (amended).  When the candidate and every registered task have a
    non-zero period and a computation time whose product with 1000 fits an
    unsigned int, admission control accepts exactly when
    U = 1000*C/P + sum of 1000*C_i/P_i is at most 693.  A request with
    U > 693 leaves the module state untouched; so does a request with
    U <= 693 whose pid names no process; a request with U <= 693 whose pid
    names a process appends exactly one record to the registry. *)
Theorem C1_admission_and_register s p period comp :
  exact_range comp period ->
  Forall (fun t => exact_range (C t) (P t)) (mp2_task_struct_list s) ->
  spec_utilization comp period (mp2_task_struct_list s) < 2 ^ 63 ->
  mp2_admission_control comp period s =
    Some (spec_utilization comp period (mp2_task_struct_list s) <=? 693) /\
  (693 < spec_utilization comp period (mp2_task_struct_list s) ->
     mp2_register_process find_task_by_pid msecs_to_jiffies
       p period comp s = Some s) /\
  (find_task_by_pid p = None ->
     mp2_register_process find_task_by_pid msecs_to_jiffies
       p period comp s = Some s) /\
  (forall h,
     spec_utilization comp period (mp2_task_struct_list s) <= 693 ->
     find_task_by_pid p = Some h ->
     exists s',
       mp2_register_process find_task_by_pid msecs_to_jiffies
         p period comp s = Some s' /\
       mp2_task_struct_list s' =
         mp2_task_struct_list s ++
         [registered_record msecs_to_jiffies p period comp h s] /\
       mp2_rq s' = mp2_rq s /\ mp2_current s' = mp2_current s).
Proof.
  intros Hc Hl Hb.
  pose proof (mp2_admission_control_exact comp period s Hc Hl Hb) as Hadm.
  split; [exact Hadm |]. unfold mp2_register_process. rewrite Hadm.
  repeat split.
  - intros HU. apply Z.leb_gt in HU. now rewrite HU.
  - intros Hnone. rewrite Hnone. now destruct (_ <=? 693).
  - intros h HU Hh. apply Z.leb_le in HU. rewrite HU, Hh. simpl.
    eexists. repeat split.
Qed.

End Admission_properties.

Lemma C1_admission_and_register_witness :
  exact_range 9 10 /\
  spec_utilization 9 10 (mp2_task_struct_list three_tasks) = 1370 /\
  mp2_admission_control 9 10 three_tasks = Some false /\
  mp2_register_process sample_find_task_by_pid sample_msecs_to_jiffies
    4 10 9 three_tasks = Some three_tasks.
Proof.
  assert (Hc : exact_range 9 10) by (unfold exact_range; lia).
  assert (Hl : Forall (fun t => exact_range (C t) (P t))
                      (mp2_task_struct_list three_tasks)).
  { repeat constructor; simpl; lia. }
  assert (Hb : spec_utilization 9 10 (mp2_task_struct_list three_tasks) < 2 ^ 63).
  { vm_compute. reflexivity. }
  destruct (C1_admission_and_register sample_find_task_by_pid
              sample_msecs_to_jiffies three_tasks 4 10 9 Hc Hl Hb)
    as (Hadm & Hrej & _).
  split; [exact Hc |]. split; [reflexivity |]. split.
  - exact Hadm.
  - apply Hrej. vm_compute. reflexivity.
Defined.

(** C1, as stated, fails on the code in both directions.  With an empty
    registry, the request (pid 500, P = 50, C = 10) has U = 200 <= 693 but
    names no process and is not registered; the request (pid 1, P = 1000,
    C = 4294968) has U = 4294968 > 693, but the unsigned product
    C * 1000 wraps to 704, admission control computes 0, and the record is
    added to the registry. *)
Lemma C1_counterexample :
  (spec_utilization 10 50 [] = 200 /\
   sample_find_task_by_pid 500 = None /\
   sample_exec (Register 500 50 10) (mp2_init_module 0)
     = Some (mp2_init_module 0)) /\
  (spec_utilization 4294968 1000 [] = 4294968 /\
   mp2_admission_control 4294968 1000 (mp2_init_module 0) = Some true /\
   option_map (fun s => map pid (mp2_task_struct_list s))
     (sample_exec (Register 1 1000 4294968) (mp2_init_module 0))
     = Some [1]).
Proof. repeat split; vm_compute; reflexivity. Qed.

(** ** The dispatcher *)


Lemma deref_set_current c s a : deref (set_current c s) a = deref s a.
Proof. reflexivity. Qed.

Lemma deref_set_rq q s a : deref (set_rq q s) a = deref s a.
Proof. reflexivity. Qed.


Lemma deref_store_same a f s t :
  (forall x, self (f x) = self x) ->
  deref s a = Some t -> deref (store a f s) a = Some (f t).
Proof.
  intros Hf H. rewrite deref_store by assumption.
  rewrite Nat.eqb_refl, H. reflexivity.
Qed.

Lemma deref_store_other a b f s :
  (forall x, self (f x) = self x) ->
  a <> b -> deref (store a f s) b = deref s b.
Proof.
  intros Hf H. rewrite deref_store by assumption.
  apply Nat.eqb_neq in H. now rewrite H.
Qed.

Section Dispatcher_properties.

Variable msecs_to_jiffies : Z -> Z.
Variable MAX_USER_RT_PRIO : Z.

Local Abbreviation cycle :=
  (mp2_sched_kthread_cycle msecs_to_jiffies MAX_USER_RT_PRIO).
Local Abbreviation run_selected :=
  (dispatch msecs_to_jiffies MAX_USER_RT_PRIO).

(** Effect of the tail of a cycle on the selected task [T]. *)
Lemma dispatch_effect s T t :
  deref s T = Some t ->
  exists s',
    run_selected T s = Some s' /\
    mp2_rq s' = mp2_rq s /\
    mp2_current s' = Some T /\
    jiffies s' = jiffies s /\
    deref s' T = Some (dispatched_record msecs_to_jiffies t) /\
    (forall b, b <> T -> deref s' b = deref s b) /\
    os_log s' = os_log s ++
      [Wake_up_process (task t);
       Sched_setscheduler (task t) SCHED_FIFO (MAX_USER_RT_PRIO - 1)].
Proof.
  intros Ht. unfold dispatch. rewrite Ht. eexists. split; [reflexivity |].
  repeat split.
  - match goal with
    | |- deref (store T ?g (store T ?h ?s0)) T = _ =>
        assert (H1 : deref (store T h s0) T = Some (h t))
          by (apply deref_store_same; [reflexivity | exact Ht]);
        exact (deref_store_same T g (store T h s0) (h t)
                 (fun _ => eq_refl) H1)
    end.
  - intros b Hb.
    rewrite !deref_store_other by (try reflexivity; congruence).
    reflexivity.
  - simpl. rewrite <- app_assoc. reflexivity.
Qed.

(** C2 (amended).  In a cycle that finds a current task R and a
    run-queue head T: when R's period is not greater than T's, nothing
    changes; when T's period is strictly shorter, R's OS priority is
    lowered to baseline, R is marked READY, and T is dispatched, while the
    run queue itself is left exactly as it was (no insertion is made: the
    task that was running is still linked in the queue). *)
Theorem C2_dispatcher_with_running_task s R T rest r t :
  mp2_current s = Some R ->
  mp2_rq s = T :: rest ->
  deref s R = Some r ->
  deref s T = Some t ->
  (P r <= P t ->
   mp2_sched_kthread_cycle msecs_to_jiffies MAX_USER_RT_PRIO s = Some s) /\
  (P t < P r ->
   exists s',
     mp2_sched_kthread_cycle msecs_to_jiffies MAX_USER_RT_PRIO s = Some s' /\
     mp2_rq s' = mp2_rq s /\
     deref s' R = Some (with_state MP2_TASK_READY r) /\
     mp2_current s' = Some T /\
     deref s' T = Some (dispatched_record msecs_to_jiffies t) /\
     os_log s' = os_log s ++
       [Sched_setscheduler (task r) SCHED_NORMAL 0;
        Set_task_uninterruptible (task r);
        Wake_up_process (task t);
        Sched_setscheduler (task t) SCHED_FIFO (MAX_USER_RT_PRIO - 1)]).
Proof.
  intros Hcur Hrq HR HT. unfold mp2_sched_kthread_cycle.
  rewrite Hrq, HT, Hcur, HR. split; intros HP.
  - destruct (P r >? P t) eqn:E; [lia | reflexivity].
  - assert (E : (P r >? P t) = true) by lia. rewrite E.
    assert (HRT : R <> T).
    { intros ->. rewrite HR in HT. inversion HT; subst. lia. }
    set (s3 := set_current None _).
    assert (HT3 : deref s3 T = Some t).
    { unfold s3. rewrite deref_set_current.
      rewrite deref_store_other by (try reflexivity; assumption).
      exact HT. }
    destruct (dispatch_effect s3 T t HT3)
      as (s' & Hs' & Hq & Hc & _ & HdT & Hother & Hlog).
    exists s'. split; [exact Hs' |]. repeat split.
    + rewrite Hq. unfold s3. simpl. exact Hrq.
    + rewrite Hother by assumption. unfold s3.
      rewrite deref_set_current.
      erewrite deref_store_same; [reflexivity | reflexivity |]. exact HR.
    + exact Hc.
    + exact HdT.
    + rewrite Hlog. unfold s3. simpl. rewrite <- !app_assoc. reflexivity.
Qed.

(** C3 (amended).  In a cycle that finds no current task and a non-empty
    run queue with head T, the dispatcher wakes T's process, raises it to
    SCHED_FIFO at priority MAX_USER_RT_PRIO - 1, records T as current,
    marks it RUNNING and advances its release time by
    msecs_to_jiffies(T.P) (modulo 2^64); T is not unlinked from the run
    queue, which is left exactly as it was. *)
Theorem C3_dispatcher_without_running_task s T rest t :
  mp2_current s = None ->
  mp2_rq s = T :: rest ->
  deref s T = Some t ->
  exists s',
    mp2_sched_kthread_cycle msecs_to_jiffies MAX_USER_RT_PRIO s = Some s' /\
    mp2_rq s' = T :: rest /\
    mp2_current s' = Some T /\
    deref s' T = Some (dispatched_record msecs_to_jiffies t) /\
    state (dispatched_record msecs_to_jiffies t) = MP2_TASK_RUNNING /\
    next_period (dispatched_record msecs_to_jiffies t) =
      wrap_u64 (next_period t + msecs_to_jiffies (P t)) /\
    (forall b, b <> T -> deref s' b = deref s b) /\
    os_log s' = os_log s ++
      [Wake_up_process (task t);
       Sched_setscheduler (task t) SCHED_FIFO (MAX_USER_RT_PRIO - 1)].
Proof.
  intros Hcur Hrq HT. unfold mp2_sched_kthread_cycle.
  rewrite Hrq, HT, Hcur.
  destruct (dispatch_effect s T t HT)
    as (s' & Hs' & Hq & Hc & _ & HdT & Hother & Hlog).
  exists s'. rewrite Hq, Hrq. repeat split; assumption.
Qed.

End Dispatcher_properties.

(** The sample states are the ones the sample request sequences produce. *)
Lemma sample_states_reached :
  sample_run one_task_released (mp2_init_module 0) = Some task1_released /\
  sample_run short_period_released (mp2_init_module 0)
    = Some task1_running_task2_released /\
  sample_run late_first_yield (mp2_init_module 0)
    = Some task1_running_task2_late /\
  sample_run (short_period_released ++ [Dispatcher]) (mp2_init_module 0)
    = Some task2_running_task1_preempted.
Proof. repeat split; vm_compute; reflexivity. Qed.

Lemma C2_dispatcher_with_running_task_witness :
  exists s',
    sample_exec Dispatcher task1_running_task2_released = Some s' /\
    mp2_rq s' = [1%nat; 0%nat] /\
    mp2_current s' = Some 1%nat /\
    option_map state (deref s' 0%nat) = Some MP2_TASK_READY.
Proof.
  destruct (C2_dispatcher_with_running_task sample_msecs_to_jiffies
              sample_MAX_USER_RT_PRIO task1_running_task2_released
              0%nat 1%nat [0%nat]
              (mk_task 0%nat 1 5001 None 10 50 100 MP2_TASK_RUNNING)
              (mk_task 1%nat 2 5002 None 5 20 60 MP2_TASK_READY)
              eq_refl eq_refl eq_refl eq_refl) as [_ H].
  destruct H as (s' & Hs' & Hq & HR & Hc & _).
  - simpl. lia.
  - exists s'. split; [exact Hs' |]. split; [exact Hq |].
    split; [exact Hc |]. rewrite HR. reflexivity.
Defined.

(** C2, as stated, fails on the code: task 1 (period 50) is running and
    task 2 (period 20) heads the run queue [task 2; task 1]; the cycle
    demotes task 1 and dispatches task 2, and the run queue afterwards is
    the same list, not the result of inserting task 1 into it. *)
Lemma C2_counterexample :
  mp2_current task1_running_task2_released = Some 0%nat /\
  mp2_rq task1_running_task2_released = [1%nat; 0%nat] /\
  exists s',
    sample_exec Dispatcher task1_running_task2_released = Some s' /\
    option_map state (deref s' 0%nat) = Some MP2_TASK_READY /\
    mp2_current s' = Some 1%nat /\
    mp2_rq s' = mp2_rq task1_running_task2_released /\
    Some (mp2_rq s') <>
      rq_insert (deref s') 50 0%nat (mp2_rq task1_running_task2_released).
Proof.
  split; [reflexivity |]. split; [reflexivity |].
  eexists. split; [vm_compute; reflexivity |].
  repeat split. vm_compute. discriminate.
Qed.

Lemma C3_dispatcher_without_running_task_witness :
  exists s',
    sample_exec Dispatcher task1_released = Some s' /\
    mp2_rq s' = [0%nat] /\
    mp2_current s' = Some 0%nat /\
    option_map next_period (deref s' 0%nat) = Some 100.
Proof.
  destruct (C3_dispatcher_without_running_task sample_msecs_to_jiffies
              sample_MAX_USER_RT_PRIO task1_released 0%nat []
              (mk_task 0%nat 1 5001 None 10 50 50 MP2_TASK_READY)
              eq_refl eq_refl eq_refl)
    as (s' & Hs' & Hq & Hc & Hd & _).
  exists s'. split; [exact Hs' |]. split; [exact Hq |].
  split; [exact Hc |]. rewrite Hd. reflexivity.
Defined.

(** C3, as stated, fails on the code: with no current task and the run
    queue [task 1], the cycle dispatches task 1 and leaves it linked in
    the run queue. *)
Lemma C3_counterexample :
  mp2_current task1_released = None /\
  mp2_rq task1_released = [0%nat] /\
  exists s',
    sample_exec Dispatcher task1_released = Some s' /\
    mp2_current s' = Some 0%nat /\
    option_map state (deref s' 0%nat) = Some MP2_TASK_RUNNING /\
    In 0%nat (mp2_rq s').
Proof.
  split; [reflexivity |]. split; [reflexivity |].
  eexists. split; [vm_compute; reflexivity |].
  repeat split. simpl. auto.
Qed.

(** ** Consistency of registry, run queue and current task *)

Lemma map_self_update_task a f l :
  (forall t, self (f t) = self t) ->
  map self (update_task a f l) = map self l.
Proof.
  intros Hf. unfold update_task. rewrite map_map. apply map_ext.
  intros t. destruct (at_addr a t); [apply Hf | reflexivity].
Qed.

Lemma update_task_compose a f g l :
  (forall t, self (g t) = self t) ->
  update_task a f (update_task a g l) = update_task a (fun t => f (g t)) l.
Proof.
  intros Hg. unfold update_task. rewrite map_map. apply map_ext.
  intros t. destruct (at_addr a t) eqn:E.
  - unfold at_addr in *. rewrite Hg, E. reflexivity.
  - rewrite E. reflexivity.
Qed.

(** With distinct addresses, the record read through an address is the
    only record at that address. *)
Lemma deref_unique l a t t' :
  NoDup (map self l) -> find (at_addr a) l = Some t ->
  In t' l -> self t' = a -> t' = t.
Proof.
  induction l as [| x l IH]; simpl; intros Hnd Hf Hin Ha; [contradiction |].
  inversion Hnd as [| ? ? Hx Hnd']; subst.
  destruct (at_addr (self t') x) eqn:E.
  - inversion Hf; subst x. destruct Hin as [-> | Hin]; [reflexivity |].
    exfalso. apply Hx. apply at_addr_true in E. rewrite E.
    now apply in_map.
  - destruct Hin as [-> | Hin].
    + unfold at_addr in E. rewrite Nat.eqb_refl in E. discriminate.
    + now apply IH.
Qed.

(** Consistency after the records at address [a] are rewritten by [f] and
    the queue and the current pointer are replaced. *)
Lemma consistent_update l q c n a f q' c' :
  consistent l q c n ->
  (forall t, self (f t) = self t) ->
  (forall x, In x q' -> (x < n)%nat) ->
  (forall t, In t l ->
     state (if at_addr a t then f t else t) = MP2_TASK_READY ->
     In (self t) q') ->
  (forall x, c' = Some x ->
     In x q' /\
     forall t, In t l -> self t = x ->
       state (if at_addr a t then f t else t) = MP2_TASK_RUNNING) ->
  consistent (update_task a f l) q' c' n.
Proof.
  intros (Hnd & Hlt & _ & _ & _) Hf Hq Hready Hcur.
  assert (Hself : forall t, self (if at_addr a t then f t else t) = self t).
  { intros t. destruct (at_addr a t); [apply Hf | reflexivity]. }
  repeat split.
  - rewrite map_self_update_task; assumption.
  - intros t' Ht'. apply In_update_task in Ht'.
    destruct Ht' as (t & Ht & ->). rewrite Hself. auto.
  - assumption.
  - intros t' Ht' Hst. apply In_update_task in Ht'.
    destruct Ht' as (t & Ht & ->). rewrite Hself. auto.
  - now apply Hcur.
  - intros t' Ht' Hx. apply In_update_task in Ht'.
    destruct Ht' as (t & Ht & ->). rewrite Hself in Hx.
    destruct (Hcur a0 H) as [_ Hc]. now apply Hc.
Qed.

(** What a successful [mp2_add_task_to_rq] does. *)
Lemma mp2_add_task_to_rq_effect tmp s s' :
  mp2_add_task_to_rq tmp s = Some s' ->
  exists t q1 q2,
    deref s tmp = Some t /\ ~ In tmp (mp2_rq s) /\
    mp2_rq s = q1 ++ q2 /\
    s' = set_rq (q1 ++ tmp :: q2) (store tmp (with_state MP2_TASK_READY) s).
Proof.
  unfold mp2_add_task_to_rq. intros H.
  destruct (deref s tmp) as [t |] eqn:Et; [| discriminate].
  change (mp2_rq (store tmp (with_state MP2_TASK_READY) s))
    with (mp2_rq s) in H.
  destruct (linked tmp (mp2_rq s)) eqn:Hl; [discriminate |].
  destruct (rq_insert _ _ _ _) as [q |] eqn:Eq; [| discriminate].
  apply rq_insert_split in Eq. destruct Eq as (q1 & q2 & E1 & E2 & _).
  inversion H; subst. exists t, q1, q2.
  repeat split; try assumption. now apply linked_false.
Qed.

Lemma mp2_remove_task_from_rq_effect tmp s s' :
  mp2_remove_task_from_rq tmp s = Some s' ->
  In tmp (mp2_rq s) /\ s' = set_rq (rq_unlink tmp (mp2_rq s)) s.
Proof.
  unfold mp2_remove_task_from_rq. intros H.
  destruct (linked tmp (mp2_rq s)) eqn:Hl; [| discriminate].
  inversion H; subst. split; [now apply linked_In | reflexivity].
Qed.

Lemma In_rq_unlink tmp q x : In x (rq_unlink tmp q) <-> In x q /\ x <> tmp.
Proof.
  unfold rq_unlink. rewrite filter_In. split; intros [H1 H2]; split; auto.
  - intros ->. rewrite Nat.eqb_refl in H2. discriminate.
  - apply negb_true_iff. apply Nat.eqb_neq. congruence.
Qed.

Lemma In_middle {A} (x a : A) q1 q2 :
  In x (q1 ++ a :: q2) <-> x = a \/ In x (q1 ++ q2).
Proof.
  rewrite !in_app_iff. simpl. intuition congruence.
Qed.

Lemma consistent_drop_current l q c n :
  consistent l q c n -> consistent l q None n.
Proof.
  intros (H1 & H2 & H3 & H4 & _). repeat split; auto; discriminate.
Qed.

(** Rewriting fields other than [self] and [state] keeps consistency. *)
Lemma consistent_update_same_state l q c n a f :
  consistent l q c n ->
  (forall t, self (f t) = self t) -> (forall t, state (f t) = state t) ->
  consistent (update_task a f l) q c n.
Proof.
  intros Hc Hself Hstate.
  assert (Hst : forall t, state (if at_addr a t then f t else t) = state t).
  { intros t. destruct (at_addr a t); [apply Hstate | reflexivity]. }
  pose proof Hc as (_ & _ & Hq & Hready & Hcur).
  apply consistent_update with (q := q) (c := c); auto.
  - intros t Ht. rewrite Hst. auto.
  - intros x Hx. destruct (Hcur x Hx) as [Hin Hrun]. split; [assumption |].
    intros t Ht Hs. rewrite Hst. auto.
Qed.

(** Marking the records at [tmp] READY and linking [tmp], which was not
    linked, keeps consistency. *)
Lemma consistent_link l q c n tmp t q1 q2 g :
  consistent l q c n ->
  In t l -> self t = tmp -> ~ In tmp q -> q = q1 ++ q2 ->
  (forall x, self (g x) = self x) ->
  (forall x, state (g x) = MP2_TASK_READY) ->
  consistent (update_task tmp g l) (q1 ++ tmp :: q2) c n.
Proof.
  intros Hc Ht Hself Hnot Hq Hgs Hgst. subst q.
  pose proof Hc as (_ & Hlt & Hqlt & Hready & Hcur).
  apply consistent_update with (q := q1 ++ q2) (c := c); auto.
  - intros x Hx. apply In_middle in Hx. destruct Hx as [-> | Hx].
    + rewrite <- Hself. auto.
    + auto.
  - intros t0 Ht0 Hst. apply In_middle.
    destruct (at_addr tmp t0) eqn:E.
    + left. now apply at_addr_true.
    + right. auto.
  - intros x Hx. destruct (Hcur x Hx) as [Hin Hrun]. split.
    + apply In_middle. right. assumption.
    + intros t0 Ht0 Hs.
      assert (E : at_addr tmp t0 = false).
      { destruct (at_addr tmp t0) eqn:E; [| reflexivity].
        apply at_addr_true in E. exfalso. apply Hnot. congruence. }
      rewrite E. auto.
Qed.

Lemma mp2_add_task_to_rq_consistent tmp s s' :
  mp2_consistent s -> mp2_add_task_to_rq tmp s = Some s' -> mp2_consistent s'.
Proof.
  intros Hc H. apply mp2_add_task_to_rq_effect in H.
  destruct H as (t & q1 & q2 & Ht & Hnot & Hq & ->).
  unfold mp2_consistent. simpl.
  apply consistent_link with (q := mp2_rq s) (t := t); auto.
  - now apply deref_In in Ht.
  - now apply deref_self in Ht.
Qed.

(** The same when the record has already been marked READY, as the timer
    handler and the late branch of yield do before linking it. *)
Lemma mp2_add_marked_task_to_rq_consistent tmp s s' :
  mp2_consistent s ->
  mp2_add_task_to_rq tmp (store tmp (with_state MP2_TASK_READY) s) = Some s' ->
  mp2_consistent s'.
Proof.
  intros Hc H. apply mp2_add_task_to_rq_effect in H.
  destruct H as (t1 & q1 & q2 & Ht1 & Hnot & Hq & ->).
  rewrite deref_store in Ht1 by reflexivity.
  rewrite Nat.eqb_refl in Ht1.
  destruct (deref s tmp) as [t |] eqn:Et; [| discriminate].
  unfold mp2_consistent. simpl in *.
  rewrite update_task_compose by reflexivity.
  apply consistent_link with (q := mp2_rq s) (t := t); auto.
  - now apply deref_In in Et.
  - now apply deref_self in Et.
Qed.

Lemma find_mp2_task_by_pid_In p s t :
  find_mp2_task_by_pid p s = Some t ->
  In t (mp2_task_struct_list s) /\ pid t = p.
Proof.
  intros H. apply find_some in H. destruct H as [H1 H2].
  split; [assumption | now apply Z.eqb_eq].
Qed.

Lemma wakeup_timer_handler_consistent p s s' :
  mp2_consistent s -> wakeup_timer_handler p s = Some s' -> mp2_consistent s'.
Proof.
  intros Hc. unfold wakeup_timer_handler.
  destruct (find_mp2_task_by_pid p s) as [tmp |].
  - destruct (mp2_add_task_to_rq _ _) as [s2 |] eqn:E; [| discriminate].
    intros H. inversion H; subst.
    apply mp2_add_marked_task_to_rq_consistent in E; assumption.
  - intros H. now inversion H; subst.
Qed.

Lemma dispatch_consistent m prio tmp s s' :
  mp2_consistent s -> In tmp (mp2_rq s) ->
  dispatch m prio tmp s = Some s' -> mp2_consistent s'.
Proof.
  intros Hc Hin. unfold dispatch.
  destruct (deref s tmp) as [t |]; [| discriminate].
  intros H. inversion H; subst; clear H.
  unfold mp2_consistent. simpl.
  apply consistent_update_same_state; try reflexivity.
  pose proof Hc as (Hnd & Hlt & Hq & Hready & Hcur).
  apply consistent_update with (q := mp2_rq s) (c := mp2_current s);
    try reflexivity; try assumption.
  - intros t0 Ht0. destruct (at_addr tmp t0); [discriminate | auto].
  - intros x Hx. inversion Hx; subst x. split; [assumption |].
    intros t0 Ht0 Hs. apply at_addr_true in Hs. rewrite Hs. reflexivity.
Qed.

Lemma mp2_sched_kthread_cycle_consistent m prio s s' :
  mp2_consistent s ->
  mp2_sched_kthread_cycle m prio s = Some s' -> mp2_consistent s'.
Proof.
  intros Hc. unfold mp2_sched_kthread_cycle.
  destruct (mp2_rq s) as [| first rest] eqn:Hrq.
  { intros H. now inversion H; subst. }
  destruct (deref s first) as [tmp |]; [| discriminate].
  assert (Hfirst : In first (mp2_rq s)) by (rewrite Hrq; simpl; auto).
  destruct (mp2_current s) as [cur |] eqn:Hcur.
  - destruct (deref s cur) as [cur_task |] eqn:Ec; [| discriminate].
    destruct (P cur_task >? P tmp).
    + apply dispatch_consistent; [| exact Hfirst].
      unfold mp2_consistent. simpl.
      pose proof Hc as (Hnd & Hlt & Hq & Hready & Hrun).
      apply consistent_update with (q := mp2_rq s) (c := mp2_current s);
        try reflexivity; try assumption; try discriminate.
      intros t0 Ht0 Hst. destruct (at_addr cur t0) eqn:E; [| auto].
      apply at_addr_true in E. rewrite E.
      now apply (Hrun cur Hcur).
    + intros H. now inversion H; subst.
  - apply dispatch_consistent; assumption.
Qed.

Lemma mp2_register_process_consistent lookup m p period comp s s' :
  mp2_consistent s ->
  mp2_register_process lookup m p period comp s = Some s' ->
  mp2_consistent s'.
Proof.
  intros Hc. unfold mp2_register_process.
  destruct (mp2_admission_control comp period s) as [adm |]; [| discriminate].
  destruct (negb adm). { intros H. now inversion H; subst. }
  destruct (lookup p) as [h |]. 2:{ intros H. now inversion H; subst. }
  intros H. inversion H; subst; clear H.
  destruct Hc as (Hnd & Hlt & Hq & Hready & Hcur).
  unfold mp2_consistent. simpl. repeat split.
  - rewrite map_app. apply NoDup_app; [assumption | |].
    + simpl. constructor; [intros [] | constructor].
    + intros a Ha [<- | []]. apply in_map_iff in Ha.
      destruct Ha as (t & Et & Ht). apply Hlt in Ht. simpl in Et. lia.
  - intros t Ht. apply in_app_or in Ht. destruct Ht as [Ht | [<- | []]].
    + apply Hlt in Ht. lia.
    + simpl. lia.
  - intros a Ha. apply Hq in Ha. lia.
  - intros t Ht Hst. apply in_app_or in Ht. destruct Ht as [Ht | [<- | []]].
    + auto.
    + discriminate.
  - now apply Hcur.
  - intros t Ht Hs. apply in_app_or in Ht. destruct Ht as [Ht | [<- | []]].
    + destruct (Hcur a H) as [_ Hrun]. auto.
    + destruct (Hcur a H) as [Hin _]. apply Hq in Hin. simpl in Hs. lia.
Qed.

Lemma mp2_deregister_process_consistent p s s' :
  mp2_consistent s -> mp2_deregister_process p s = Some s' ->
  mp2_consistent s'.
Proof.
  intros Hc. unfold mp2_deregister_process.
  destruct (find_mp2_task_by_pid p s) as [tmp |].
  2:{ intros H. now inversion H; subst. }
  destruct (mp2_remove_task_from_rq (self tmp) s) as [s1 |] eqn:E1;
    [| discriminate].
  apply mp2_remove_task_from_rq_effect in E1. destruct E1 as [Hin ->].
  intros H. inversion H; subst; clear H.
  destruct Hc as (Hnd & Hlt & Hq & Hready & Hcur).
  assert (Hbase : forall c,
    (forall a, c = Some a -> mp2_current s = Some a /\ a <> self tmp) ->
    consistent
      (filter (fun t => negb (at_addr (self tmp) t)) (mp2_task_struct_list s))
      (rq_unlink (self tmp) (mp2_rq s)) c (kmalloc_next s)).
  { intros c Hsub. repeat split.
    - change (fun t => negb (at_addr (self tmp) t))
        with (fun t => (fun x => negb (Nat.eqb x (self tmp))) (self t)).
      rewrite <- filter_map_swap. now apply NoDup_filter.
    - intros t Ht. apply filter_In in Ht. apply Hlt. tauto.
    - intros a Ha. apply In_rq_unlink in Ha. apply Hq. tauto.
    - intros t Ht Hst. apply filter_In in Ht. destruct Ht as [Ht Hne].
      apply In_rq_unlink. split; [auto |].
      apply negb_true_iff in Hne. intros Heq.
      apply at_addr_true in Heq. congruence.
    - destruct (Hsub a H) as [Hc Hne]. apply In_rq_unlink.
      split; [| assumption]. now apply Hcur.
    - intros t Ht Hs. apply filter_In in Ht.
      destruct (Hsub a H) as [Hc _]. destruct (Hcur a Hc) as [_ Hrun].
      apply Hrun; tauto. }
  unfold mp2_consistent. simpl.
  destruct (mp2_current s) as [cur |] eqn:Ecur; simpl.
  - destruct (Nat.eqb (self tmp) cur) eqn:Eq; simpl.
    + apply Hbase. discriminate.
    + apply Hbase. intros a Ha. rewrite Ecur in Ha. split; [exact Ha |].
      injection Ha as Ha. apply Nat.eqb_neq in Eq. congruence.
  - apply Hbase. intros a Ha. rewrite Ecur in Ha. discriminate.
Qed.

Lemma deref_of_In l t :
  NoDup (map self l) -> In t l -> find (at_addr (self t)) l = Some t.
Proof.
  intros Hnd Hin.
  destruct (find (at_addr (self t)) l) as [t0 |] eqn:E.
  - f_equal. symmetry. eapply deref_unique; eauto.
  - exfalso. apply (find_none _ _ E) in Hin.
    unfold at_addr in Hin. rewrite Nat.eqb_refl in Hin. discriminate.
Qed.

Lemma yield_lookup_In p s tmp :
  yield_lookup p s = Some (Some tmp) -> In tmp (mp2_task_struct_list s).
Proof.
  unfold yield_lookup. destruct (mp2_current s) as [cur |].
  - destruct (deref s cur) as [ct |] eqn:Ec; [| discriminate].
    destruct (pid ct =? p).
    + intros H. inversion H; subst. now apply deref_In in Ec.
    + intros H. inversion H as [H1]. now apply find_mp2_task_by_pid_In in H1.
  - intros H. inversion H as [H1]. now apply find_mp2_task_by_pid_In in H1.
Qed.

Lemma yield_before_release_consistent tmp s s' :
  mp2_consistent s -> In tmp (mp2_task_struct_list s) ->
  yield_before_release tmp s = Some s' -> mp2_consistent s'.
Proof.
  intros Hc Htmp. unfold yield_before_release.
  set (tm := Some _).
  set (s2 := store (self tmp) (with_timer tm)
               (store (self tmp) (with_state MP2_TASK_SLEEPING) s)).
  pose proof Hc as (Hnd & Hlt & Hq & Hready & Hcur).
  assert (Hl2 : mp2_task_struct_list s2 =
                update_task (self tmp)
                  (fun t => with_timer tm (with_state MP2_TASK_SLEEPING t))
                  (mp2_task_struct_list s)).
  { unfold s2. simpl. now rewrite update_task_compose by reflexivity. }
  assert (Hsleep : forall t0, In t0 (mp2_task_struct_list s) ->
            state (if at_addr (self tmp) t0
                   then with_timer tm (with_state MP2_TASK_SLEEPING t0)
                   else t0) = MP2_TASK_READY ->
            at_addr (self tmp) t0 = false /\ In (self t0) (mp2_rq s)).
  { intros t0 Ht0. destruct (at_addr (self tmp) t0); [discriminate | auto]. }
  change (mp2_current s2) with (mp2_current s).
  destruct (mp2_current s) as [cur |] eqn:Ecur.
  - destruct (deref s2 cur) as [ct |] eqn:Ect; [| discriminate].
    destruct (pid ct =? pid tmp) eqn:Epid.
    + destruct (mp2_remove_task_from_rq (self tmp) s2) as [s3 |] eqn:E3;
        [| discriminate].
      apply mp2_remove_task_from_rq_effect in E3. destruct E3 as [Hin ->].
      intros H. inversion H; subst s'; clear H.
      change (consistent (mp2_task_struct_list s2)
                (rq_unlink (self tmp) (mp2_rq s)) None (kmalloc_next s)).
      rewrite Hl2.
      apply (consistent_update _ (mp2_rq s) (mp2_current s) _ _ _ _ _ Hc);
        [reflexivity | | | discriminate].
      * intros x Hx. apply In_rq_unlink in Hx. apply Hq. tauto.
      * intros t0 Ht0 Hst. destruct (Hsleep t0 Ht0 Hst) as [E Hin0].
        apply In_rq_unlink. split; [assumption |].
        intros Heq. unfold at_addr in E.
        rewrite Heq, Nat.eqb_refl in E. discriminate.
    + intros H. inversion H; subst s'; clear H.
      change (consistent (mp2_task_struct_list s2) (mp2_rq s)
                (mp2_current s) (kmalloc_next s)).
      rewrite Hl2.
      assert (Hne : self tmp <> cur).
      { intros Heq. unfold s2 in Ect.
        rewrite !deref_store in Ect by reflexivity.
        rewrite <- Heq, Nat.eqb_refl in Ect.
        unfold deref in Ect. rewrite (deref_of_In _ _ Hnd Htmp) in Ect.
        simpl in Ect. inversion Ect; subst ct. simpl in Epid.
        rewrite Z.eqb_refl in Epid. discriminate. }
      apply (consistent_update _ (mp2_rq s) (mp2_current s) _ _ _ _ _ Hc);
        [reflexivity | assumption | |].
      * intros t0 Ht0 Hst. now apply Hsleep.
      * intros x Hx. rewrite Ecur in Hx.
        destruct (Hcur x Hx) as [Hin Hrun].
        split; [assumption |]. intros t0 Ht0 Hs.
        assert (E : at_addr (self tmp) t0 = false).
        { destruct (at_addr (self tmp) t0) eqn:E; [| reflexivity].
          apply at_addr_true in E. congruence. }
        rewrite E. auto.
  - intros H. inversion H; subst s'; clear H.
    change (consistent (mp2_task_struct_list s2) (mp2_rq s)
              (mp2_current s) (kmalloc_next s)).
    rewrite Hl2.
    apply (consistent_update _ (mp2_rq s) (mp2_current s) _ _ _ _ _ Hc);
      [reflexivity | assumption | |].
    + intros t0 Ht0 Hst. now apply Hsleep.
    + intros x Hx. rewrite Ecur in Hx. discriminate.
Qed.

Lemma yield_after_release_consistent tmp s s' :
  mp2_consistent s ->
  yield_after_release tmp s = Some s' -> mp2_consistent s'.
Proof.
  intros Hc. unfold yield_after_release.
  destruct (is_sleeping (state tmp)).
  - destruct (mp2_add_task_to_rq _ _) as [s1 |] eqn:E; [| discriminate].
    apply mp2_add_marked_task_to_rq_consistent in E; [| assumption].
    intros H. inversion H; subst s'; clear H.
    unfold mp2_consistent in *. simpl.
    eapply consistent_drop_current. exact E.
  - intros H. inversion H; subst s'; clear H.
    unfold mp2_consistent in *. simpl.
    eapply consistent_drop_current. exact Hc.
Qed.

Lemma mp2_yield_process_consistent p s s' :
  mp2_consistent s -> mp2_yield_process p s = Some s' -> mp2_consistent s'.
Proof.
  intros Hc. unfold mp2_yield_process.
  destruct (yield_lookup p s) as [[tmp |] |] eqn:El; try discriminate.
  - apply yield_lookup_In in El.
    destruct (jiffies s <? next_period tmp).
    + destruct (yield_before_release tmp s) as [s1 |] eqn:E; [| discriminate].
      apply yield_before_release_consistent in E; try assumption.
      intros H. inversion H; subst s'. exact E.
    + destruct (yield_after_release tmp s) as [s1 |] eqn:E; [| discriminate].
      apply yield_after_release_consistent in E; try assumption.
      intros H. inversion H; subst s'. exact E.
  - intros H. now inversion H; subst.
Qed.

Lemma run_timer_consistent a s s' :
  mp2_consistent s -> run_timer a s = Some s' -> mp2_consistent s'.
Proof.
  intros Hc. unfold run_timer. destruct (deref s a) as [t |]; [| discriminate].
  apply wakeup_timer_handler_consistent.
  unfold mp2_consistent. simpl.
  apply consistent_update_same_state; [exact Hc | reflexivity | reflexivity].
Qed.

(** *** Sortedness of the run queue along executions *)










Section System_properties.

Variable find_task_by_pid : Z -> option Z.
Variable msecs_to_jiffies : Z -> Z.
Variable MAX_USER_RT_PRIO : Z.

Local Abbreviation exec :=
  (mp2_exec find_task_by_pid msecs_to_jiffies MAX_USER_RT_PRIO).
Local Abbreviation run :=
  (mp2_run find_task_by_pid msecs_to_jiffies MAX_USER_RT_PRIO).
Local Abbreviation reach :=
  (reachable find_task_by_pid msecs_to_jiffies MAX_USER_RT_PRIO).

Lemma mp2_exec_consistent e s s' :
  mp2_consistent s -> exec e s = Some s' -> mp2_consistent s'.
Proof.
  intros Hc. destruct e as [p period comp | p | p | a | |]; simpl.
  - now apply mp2_register_process_consistent.
  - now apply mp2_yield_process_consistent.
  - now apply mp2_deregister_process_consistent.
  - destruct (timer_expired a s); [| discriminate].
    now apply run_timer_consistent.
  - now apply mp2_sched_kthread_cycle_consistent.
  - intros H. inversion H; subst. exact Hc.
Qed.

Lemma reachable_consistent s : reach s -> mp2_consistent s.
Proof.
  induction 1 as [j0 Hj | s e s' Hr IH He].
  - repeat split; simpl; try contradiction; try discriminate. constructor.
  - eapply mp2_exec_consistent; eauto.
Qed.


Lemma reachable_run es : forall s s',
  reach s -> run es s = Some s' -> reach s'.
Proof.
  induction es as [| e es IH]; simpl; intros s s' Hr H.
  - now inversion H; subst.
  - destruct (exec e s) as [s1 |] eqn:E; [| discriminate].
    apply (IH s1); [| assumption]. eapply reachable_step; eauto.
Qed.


End System_properties.

Lemma sample_reachable es s :
  sample_run es (mp2_init_module 0) = Some s ->
  reachable sample_find_task_by_pid sample_msecs_to_jiffies
            sample_MAX_USER_RT_PRIO s.
Proof.
  apply reachable_run. constructor. unfold is_u64. lia.
Qed.



(** ** Release times *)













Section Release_properties.

Variable find_task_by_pid : Z -> option Z.
Variable msecs_to_jiffies : Z -> Z.
Variable MAX_USER_RT_PRIO : Z.

Local Abbreviation register :=
  (mp2_register_process find_task_by_pid msecs_to_jiffies).
Local Abbreviation run :=
  (mp2_run find_task_by_pid msecs_to_jiffies MAX_USER_RT_PRIO).





(** C9 (amended).  Registration makes no check for an id that is already
    registered: when the id is present, a further request for it that
    passes admission control and names a process appends one more record
    with that id, and lookups by id keep returning the older record. *)
Theorem C9_register_accepts_duplicate_id s p period comp h :
  (0 < records_with_pid p s)%nat ->
  mp2_admission_control comp period s = Some true ->
  find_task_by_pid p = Some h ->
  exists s',
    mp2_register_process find_task_by_pid msecs_to_jiffies
      p period comp s = Some s' /\
    records_with_pid p s' = S (records_with_pid p s) /\
    find_mp2_task_by_pid p s' = find_mp2_task_by_pid p s.
Proof.
  intros Hpos Hadm Hh. unfold mp2_register_process. rewrite Hadm, Hh. simpl.
  eexists. split; [reflexivity |].
  unfold records_with_pid, find_mp2_task_by_pid in *. simpl. split.
  - rewrite filter_app, length_app. simpl. rewrite Z.eqb_refl. simpl. lia.
  - destruct (find (fun t => pid t =? p) (mp2_task_struct_list s)) eqn:E.
    + now apply find_app_some.
    + exfalso.
      destruct (filter (fun t => pid t =? p) (mp2_task_struct_list s))
        as [| t0 l0] eqn:Ef; [simpl in Hpos; lia |].
      assert (Hin : In t0 (filter (fun t => pid t =? p)
                                  (mp2_task_struct_list s)))
        by (rewrite Ef; simpl; auto).
      apply filter_In in Hin. destruct Hin as [Hin Hp].
      apply (find_none _ _ E) in Hin. congruence.
Qed.

End Release_properties.




Lemma C9_register_accepts_duplicate_id_witness :
  exists s',
    sample_exec (Register 1 100 1) three_tasks = Some s' /\
    records_with_pid 1 s' = 2%nat /\
    find_mp2_task_by_pid 1 s'
      = Some (mk_task 0%nat 1 5001 None 10 50 50 MP2_TASK_SLEEPING).
Proof.
  assert (Hpos : (0 < records_with_pid 1 three_tasks)%nat)
    by (vm_compute; lia).
  destruct (C9_register_accepts_duplicate_id sample_find_task_by_pid
              sample_msecs_to_jiffies three_tasks 1 100 1 5001
              Hpos eq_refl eq_refl) as (s' & Hs' & Hn & Hf).
  exists s'. split; [exact Hs' |]. split.
  - rewrite Hn. reflexivity.
  - rewrite Hf. reflexivity.
Defined.

(** C9, as stated, fails on the code: two successive registrations of
    id 1 both succeed and leave two records with id 1 in the registry. *)
Lemma C9_counterexample :
  exists s,
    sample_run [Register 1 100 20; Register 1 100 20] (mp2_init_module 0)
      = Some s /\
    map pid (mp2_task_struct_list s) = [1; 1] /\
    records_with_pid 1 s = 2%nat.
Proof.
  eexists. split; [vm_compute; reflexivity |]. split; reflexivity.
Qed.

(** ** Yield *)

(** The expiry handed to [mod_timer], [jiffies + (next_period - jiffies)]
    in u64 arithmetic, is the release time itself. *)
Lemma yield_timer_expiry j np :
  is_u64 j -> is_u64 np -> j < np ->
  wrap_u64 (j + wrap_u64 (np - j)) = np.
Proof.
  unfold is_u64, wrap_u64. intros Hj Hnp Hlt.
  rewrite (Z.mod_small (np - j)) by lia.
  replace (j + (np - j)) with np by lia.
  apply Z.mod_small. lia.
Qed.

(** The early branch on the current task: it is put to sleep, its timer
    is armed for its release time, it is unlinked from the run queue, the
    current slot is cleared and the dispatcher is signalled. *)
Lemma yield_before_release_of_current s a t :
  mp2_current s = Some a -> deref s a = Some t -> In a (mp2_rq s) ->
  is_u64 (jiffies s) -> is_u64 (next_period t) ->
  jiffies s < next_period t ->
  exists s',
    yield_before_release t s = Some s' /\
    deref s' a = Some (with_timer (Some (next_period t))
                         (with_state MP2_TASK_SLEEPING t)) /\
    mp2_rq s' = rq_unlink a (mp2_rq s) /\
    ~ In a (mp2_rq s') /\
    mp2_current s' = None /\
    os_log s' = os_log s ++ [Wake_up_waitqueue].
Proof.
  intros Hcur Ht Hin Hj Hnp Hlt. unfold yield_before_release.
  rewrite (yield_timer_expiry _ _ Hj Hnp Hlt).
  pose proof (deref_self _ _ _ Ht) as Hself. rewrite Hself.
  set (s2 := store a (with_timer (Some (next_period t)))
               (store a (with_state MP2_TASK_SLEEPING) s)).
  assert (H2 : deref s2 a = Some (with_timer (Some (next_period t))
                                    (with_state MP2_TASK_SLEEPING t))).
  { unfold s2. apply deref_store_same; [reflexivity |].
    apply deref_store_same; [reflexivity | exact Ht]. }
  change (mp2_current s2) with (mp2_current s). rewrite Hcur, H2.
  simpl pid. rewrite Z.eqb_refl.
  unfold mp2_remove_task_from_rq. change (mp2_rq s2) with (mp2_rq s).
  apply linked_In in Hin. rewrite Hin.
  eexists. split; [reflexivity |]. simpl.
  split; [exact H2 |]. split; [reflexivity |].
  split; [| split; reflexivity].
  intros H. apply In_rq_unlink in H. destruct H as [_ H]. now apply H.
Qed.

(** The early branch on a task other than the current one: the run queue
    and the current slot are left as they were. *)
Lemma yield_before_release_of_other tmp s :
  match mp2_current s with
  | Some cur => exists ct, deref s cur = Some ct /\ pid ct <> pid tmp
  | None => True
  end ->
  exists s',
    yield_before_release tmp s = Some s' /\
    mp2_rq s' = mp2_rq s /\ mp2_current s' = mp2_current s.
Proof.
  intros Hcur. unfold yield_before_release.
  set (tm := Some _).
  set (s2 := store (self tmp) (with_timer tm)
               (store (self tmp) (with_state MP2_TASK_SLEEPING) s)).
  change (mp2_current s2) with (mp2_current s).
  destruct (mp2_current s) as [cur |] eqn:Ecur.
  2:{ exists s2. split; [reflexivity |]. split; [reflexivity | exact Ecur]. }
  destruct Hcur as (ct & Hct & Hpid).
  assert (H2 : exists ct2, deref s2 cur = Some ct2 /\ pid ct2 = pid ct).
  { unfold s2. rewrite !deref_store by reflexivity. rewrite Hct.
    destruct (Nat.eqb (self tmp) cur); simpl; eauto. }
  destruct H2 as (ct2 & -> & E2). rewrite E2.
  apply Z.eqb_neq in Hpid. rewrite Hpid.
  exists s2. split; [reflexivity |]. split; [reflexivity | exact Ecur].
Qed.

(** The late branch clears the current slot whatever it held. *)
Lemma yield_after_release_clears_current tmp s s' :
  yield_after_release tmp s = Some s' -> mp2_current s' = None.
Proof.
  unfold yield_after_release.
  destruct (if is_sleeping (state tmp) then _ else _); [| discriminate].
  intros H. now inversion H.
Qed.

(** C7 on the failing input.  Task 2 is running and task 1, preempted, is
    READY in the run queue with release time 100; at jiffies 60 task 1
    yields.  The code puts it to sleep and arms its timer for 100 but
    leaves it linked in the run queue; once task 2 has yielded, the next
    dispatcher cycle makes task 1 the running task again, still at
    jiffies 60. *)
Theorem C7_yield_of_queued_task_leaves_it_queued :
  exists s1 s2,
    sample_exec (Yield 1) task2_running_task1_preempted = Some s1 /\
    jiffies s1 = 60 /\
    deref s1 0%nat
      = Some (mk_task 0%nat 1 5001 (Some 100) 10 50 100 MP2_TASK_SLEEPING) /\
    mp2_rq s1 = [1%nat; 0%nat] /\
    mp2_current s1 = Some 1%nat /\
    sample_run [Yield 2; Dispatcher] s1 = Some s2 /\
    jiffies s2 = 60 /\
    mp2_current s2 = Some 0%nat /\
    option_map state (deref s2 0%nat) = Some MP2_TASK_RUNNING.
Proof.
  eexists. eexists. split; [vm_compute; reflexivity |].
  repeat split.
Qed.

(** C8 on the failing input.  Task 1 is the current task; task 2, which is
    SLEEPING, yields at jiffies 70, its release time.  The code links
    task 2 into the run queue and clears [mp2_current], although the task
    recorded there was task 1, whose state remains RUNNING. *)
Theorem C8_late_yield_clears_unrelated_current :
  mp2_current task1_running_task2_late = Some 0%nat /\
  find_mp2_task_by_pid 2 task1_running_task2_late
    = Some (mk_task 1%nat 2 5002 None 5 20 70 MP2_TASK_SLEEPING) /\
  jiffies task1_running_task2_late = 70 /\
  exists s1,
    sample_exec (Yield 2) task1_running_task2_late = Some s1 /\
    mp2_current s1 = None /\
    mp2_rq s1 = [1%nat; 0%nat] /\
    option_map state (deref s1 0%nat) = Some MP2_TASK_RUNNING /\
    option_map state (deref s1 1%nat) = Some MP2_TASK_READY.
Proof.
  split; [reflexivity |]. split; [reflexivity |]. split; [reflexivity |].
  eexists. split; [vm_compute; reflexivity |].
  repeat split.
Qed.

(** ** Properties of the scheduling events in general *)

(** A property of the registry and the run queue that every field write of
    the module, every link and every unlink keeps, is kept by yield, timer
    expiry, the dispatcher and the clock. *)
Section Scheduling_invariant.

Variable Inv : mp2 -> Prop.

Hypothesis Inv_fields : forall s s',
  mp2_task_struct_list s' = mp2_task_struct_list s ->
  mp2_rq s' = mp2_rq s -> Inv s -> Inv s'.
Hypothesis Inv_state : forall a st s,
  Inv s -> Inv (store a (with_state st) s).
Hypothesis Inv_timer : forall a tm s,
  Inv s -> Inv (store a (with_timer tm) s).
Hypothesis Inv_next : forall a g s,
  Inv s -> Inv (store a (fun c => with_next_period (g c) c) s).
Hypothesis Inv_link : forall tmp s s',
  Inv s -> mp2_add_task_to_rq tmp s = Some s' -> Inv s'.
Hypothesis Inv_unlink : forall tmp s,
  Inv s -> In tmp (mp2_rq s) -> Inv (set_rq (rq_unlink tmp (mp2_rq s)) s).

Lemma wakeup_timer_handler_keeps p s s' :
  Inv s -> wakeup_timer_handler p s = Some s' -> Inv s'.
Proof.
  intros Hs. unfold wakeup_timer_handler.
  destruct (find_mp2_task_by_pid p s) as [tmp |].
  - destruct (mp2_add_task_to_rq _ _) as [s2 |] eqn:E; [| discriminate].
    apply Inv_link in E; [| now apply Inv_state].
    intros H. inversion H; subst s'.
    apply (Inv_fields s2); [reflexivity | reflexivity | exact E].
  - intros H. now inversion H; subst.
Qed.

Lemma run_timer_keeps a s s' :
  Inv s -> run_timer a s = Some s' -> Inv s'.
Proof.
  intros Hs. unfold run_timer. destruct (deref s a); [| discriminate].
  apply wakeup_timer_handler_keeps. now apply Inv_timer.
Qed.

Lemma yield_before_release_keeps tmp s s' :
  Inv s -> yield_before_release tmp s = Some s' -> Inv s'.
Proof.
  intros Hs. unfold yield_before_release.
  set (s2 := store (self tmp) (with_timer _) (store (self tmp) _ s)).
  assert (H2 : Inv s2) by (unfold s2; now apply Inv_timer, Inv_state).
  change (mp2_current s2) with (mp2_current s).
  destruct (mp2_current s) as [cur |].
  - destruct (deref s2 cur) as [ct |]; [| discriminate].
    destruct (pid ct =? pid tmp).
    + destruct (mp2_remove_task_from_rq _ _) as [s3 |] eqn:E; [| discriminate].
      apply mp2_remove_task_from_rq_effect in E. destruct E as [Hin ->].
      intros H. inversion H; subst s'.
      apply (Inv_fields (set_rq (rq_unlink (self tmp) (mp2_rq s2)) s2));
        [reflexivity | reflexivity |].
      now apply Inv_unlink.
    + intros H. inversion H; subst s'. exact H2.
  - intros H. inversion H; subst s'. exact H2.
Qed.

Lemma yield_after_release_keeps tmp s s' :
  Inv s -> yield_after_release tmp s = Some s' -> Inv s'.
Proof.
  intros Hs. unfold yield_after_release. destruct (is_sleeping (state tmp)).
  - destruct (mp2_add_task_to_rq _ _) as [s1 |] eqn:E; [| discriminate].
    apply Inv_link in E; [| now apply Inv_state].
    intros H. inversion H; subst s'.
    apply (Inv_fields s1); [reflexivity | reflexivity | exact E].
  - intros H. inversion H; subst s'.
    apply (Inv_fields s); [reflexivity | reflexivity | exact Hs].
Qed.

Lemma mp2_yield_process_keeps p s s' :
  Inv s -> mp2_yield_process p s = Some s' -> Inv s'.
Proof.
  intros Hs. unfold mp2_yield_process.
  destruct (yield_lookup p s) as [[tmp |] |]; try discriminate.
  2:{ intros H. now inversion H; subst. }
  destruct (jiffies s <? next_period tmp).
  - destruct (yield_before_release tmp s) as [s1 |] eqn:E; [| discriminate].
    apply yield_before_release_keeps in E; [| exact Hs].
    intros H. inversion H; subst s'.
    apply (Inv_fields s1); [reflexivity | reflexivity | exact E].
  - destruct (yield_after_release tmp s) as [s1 |] eqn:E; [| discriminate].
    apply yield_after_release_keeps in E; [| exact Hs].
    intros H. inversion H; subst s'.
    apply (Inv_fields s1); [reflexivity | reflexivity | exact E].
Qed.

Lemma dispatch_keeps m prio tmp s s' :
  Inv s -> dispatch m prio tmp s = Some s' -> Inv s'.
Proof.
  intros Hs. unfold dispatch. destruct (deref s tmp) as [t |]; [| discriminate].
  intros H. inversion H; subst s'.
  apply (Inv_next tmp (fun c => wrap_u64 (next_period c + m (P c)))).
  apply Inv_state.
  apply (Inv_fields s); [reflexivity | reflexivity | exact Hs].
Qed.

Lemma mp2_sched_kthread_cycle_keeps m prio s s' :
  Inv s -> mp2_sched_kthread_cycle m prio s = Some s' -> Inv s'.
Proof.
  intros Hs. unfold mp2_sched_kthread_cycle.
  destruct (mp2_rq s) as [| first rest] eqn:Hrq.
  { intros H. now inversion H; subst. }
  destruct (deref s first) as [tmp |]; [| discriminate].
  destruct (mp2_current s) as [cur |].
  - destruct (deref s cur) as [cur_task |]; [| discriminate].
    destruct (P cur_task >? P tmp).
    + apply dispatch_keeps.
      apply (Inv_fields (store cur (with_state MP2_TASK_READY) s));
        [reflexivity | reflexivity |].
      now apply Inv_state.
    + intros H. now inversion H; subst.
  - now apply dispatch_keeps.
Qed.

Lemma scheduling_event_keeps lookup m prio e s s' :
  scheduling_event e = true ->
  Inv s -> mp2_exec lookup m prio e s = Some s' -> Inv s'.
Proof.
  intros He Hs. destruct e as [p period comp | p | p | a | |];
    try discriminate He; simpl.
  - now apply mp2_yield_process_keeps.
  - destruct (timer_expired a s); [| discriminate].
    now apply run_timer_keeps.
  - now apply mp2_sched_kthread_cycle_keeps.
  - intros H. inversion H; subst s'.
    apply (Inv_fields s); [reflexivity | reflexivity | exact Hs].
Qed.

End Scheduling_invariant.

(** ** Integrity of the run queue *)

Lemma NoDup_insert_middle {A} (a : A) q1 q2 :
  NoDup (q1 ++ q2) -> ~ In a (q1 ++ q2) -> NoDup (q1 ++ a :: q2).
Proof.
  induction q1 as [| x q1 IH]; simpl; intros Hnd Hin.
  - now constructor.
  - inversion Hnd as [| ? ? Hx Hnd']; subst. constructor.
    + intros H. apply In_middle in H. destruct H as [-> | H]; tauto.
    + apply IH; tauto.
Qed.

Lemma live_store a f s b :
  (forall t, self (f t) = self t) ->
  deref s b <> None -> deref (store a f s) b <> None.
Proof.
  intros Hf Hb. rewrite deref_store by assumption.
  destruct (Nat.eqb a b); [| assumption].
  destruct (deref s b); [discriminate | assumption].
Qed.

Lemma rq_intact_store a f s :
  (forall t, self (f t) = self t) -> rq_intact s -> rq_intact (store a f s).
Proof.
  intros Hf [Hnd Hlive]. split; [exact Hnd |].
  intros b Hb. apply live_store; auto.
Qed.

Lemma rq_intact_link tmp s s' :
  rq_intact s -> mp2_add_task_to_rq tmp s = Some s' -> rq_intact s'.
Proof.
  intros [Hnd Hlive] H. apply mp2_add_task_to_rq_effect in H.
  destruct H as (t & q1 & q2 & Ht & Hnot & Hq & ->).
  unfold rq_intact. simpl mp2_rq. rewrite Hq in *. split.
  - now apply NoDup_insert_middle.
  - intros b Hb. rewrite deref_set_rq. apply In_middle in Hb.
    apply live_store; [reflexivity |].
    destruct Hb as [-> | Hb]; [congruence | auto].
Qed.

Lemma rq_intact_unlink tmp s :
  rq_intact s -> In tmp (mp2_rq s) ->
  rq_intact (set_rq (rq_unlink tmp (mp2_rq s)) s).
Proof.
  intros [Hnd Hlive] _. split; simpl.
  - now apply NoDup_filter.
  - intros b Hb. apply In_rq_unlink in Hb. rewrite deref_set_rq.
    apply Hlive. tauto.
Qed.

Lemma rq_intact_fields s s' :
  mp2_task_struct_list s' = mp2_task_struct_list s ->
  mp2_rq s' = mp2_rq s -> rq_intact s -> rq_intact s'.
Proof.
  unfold rq_intact, deref. intros -> ->. auto.
Qed.

Lemma rq_intact_scheduling lookup m prio e s s' :
  scheduling_event e = true ->
  rq_intact s -> mp2_exec lookup m prio e s = Some s' -> rq_intact s'.
Proof.
  apply scheduling_event_keeps.
  - exact rq_intact_fields.
  - intros a st s0. now apply rq_intact_store.
  - intros a tm s0. now apply rq_intact_store.
  - intros a g s0. now apply rq_intact_store.
  - exact rq_intact_link.
  - exact rq_intact_unlink.
Qed.

Lemma mp2_register_process_intact lookup m p period comp s s' :
  rq_intact s ->
  mp2_register_process lookup m p period comp s = Some s' -> rq_intact s'.
Proof.
  intros [Hnd Hlive]. unfold mp2_register_process.
  destruct (mp2_admission_control comp period s) as [adm |]; [| discriminate].
  destruct (negb adm). { intros H. inversion H; subst. now split. }
  destruct (lookup p) as [h |]. 2:{ intros H. inversion H; subst. now split. }
  intros H. inversion H; subst s'; clear H. split; [exact Hnd |].
  simpl. intros a Ha. specialize (Hlive a Ha). unfold deref in *. simpl.
  destruct (find (at_addr a) (mp2_task_struct_list s)) as [t |] eqn:E.
  - rewrite (find_app_some _ _ _ _ E). discriminate.
  - now elim Hlive.
Qed.

Lemma mp2_deregister_process_intact p s s' :
  rq_intact s -> mp2_deregister_process p s = Some s' -> rq_intact s'.
Proof.
  intros [Hnd Hlive]. unfold mp2_deregister_process.
  destruct (find_mp2_task_by_pid p s) as [tmp |].
  2:{ intros H. inversion H; subst. now split. }
  destruct (mp2_remove_task_from_rq (self tmp) s) as [s1 |] eqn:E1;
    [| discriminate].
  apply mp2_remove_task_from_rq_effect in E1. destruct E1 as [_ ->].
  intros H. inversion H; subst s'; clear H.
  assert (Hgen : forall s0,
    mp2_task_struct_list s0 =
      filter (fun t => negb (at_addr (self tmp) t)) (mp2_task_struct_list s) ->
    mp2_rq s0 = rq_unlink (self tmp) (mp2_rq s) -> rq_intact s0).
  { intros s0 Hl Hq. unfold rq_intact. rewrite Hq. split.
    - now apply NoDup_filter.
    - intros a Ha. apply In_rq_unlink in Ha. destruct Ha as [Ha Hne].
      unfold deref. rewrite Hl, find_filter_other by assumption.
      now apply Hlive. }
  apply Hgen; simpl.
  - destruct (mp2_current s) as [cur |]; [| reflexivity].
    destruct (Nat.eqb (self tmp) cur); reflexivity.
  - destruct (mp2_current s) as [cur |]; [| reflexivity].
    destruct (Nat.eqb (self tmp) cur); reflexivity.
Qed.

Lemma reachable_rq_intact lookup m prio s :
  reachable lookup m prio s -> rq_intact s.
Proof.
  induction 1 as [j0 Hj | s e s' Hr IH He].
  - split; simpl; [constructor | contradiction].
  - destruct (scheduling_event e) eqn:Ee.
    + eapply rq_intact_scheduling; eauto.
    + destruct e as [p period comp | p | p | a | |]; try discriminate Ee;
        simpl in He.
      * eapply mp2_register_process_intact; eauto.
      * eapply mp2_deregister_process_intact; eauto.
Qed.

(** In a reachable state the current task is a live record. *)
Lemma reachable_current_live lookup m prio s a :
  reachable lookup m prio s -> mp2_current s = Some a -> deref s a <> None.
Proof.
  intros Hr Ha. pose proof (reachable_consistent _ _ _ s Hr) as Hc.
  destruct Hc as (_ & _ & _ & _ & Hcur).
  destruct (Hcur a Ha) as [Hin _].
  now apply (reachable_rq_intact _ _ _ s Hr).
Qed.

(** ** Lookup, registration and de-registration *)

Lemma find_first_match {A} (f : A -> bool) l x :
  find f l = Some x ->
  f x = true /\
  exists l1 l2, l = l1 ++ x :: l2 /\ Forall (fun y => f y = false) l1.
Proof.
  induction l as [| y l IH]; simpl; [discriminate |].
  destruct (f y) eqn:E.
  - intros H. inversion H; subst. split; [assumption |].
    exists [], l. split; [reflexivity | constructor].
  - intros H. destruct (IH H) as (Hx & l1 & l2 & -> & Hl1).
    split; [assumption |]. exists (y :: l1), l2. split; [reflexivity |].
    now constructor.
Qed.

Lemma find_none_Forall {A} (f : A -> bool) l :
  find f l = None <-> Forall (fun y => f y = false) l.
Proof.
  induction l as [| y l IH]; simpl.
  - split; [constructor | reflexivity].
  - destruct (f y) eqn:E; split; intros H.
    + discriminate.
    + inversion H; subst. congruence.
    + constructor; [assumption | now apply IH].
    + inversion H; subst. now apply IH.
Qed.

Lemma unregistered_lookup p s :
  unregistered p s <-> find_mp2_task_by_pid p s = None.
Proof.
  unfold unregistered, find_mp2_task_by_pid. rewrite find_none_Forall.
  split; apply Forall_impl; intros t Ht.
  - now apply Z.eqb_neq.
  - now apply Z.eqb_neq in Ht.
Qed.

(** X1.  [find_mp2_task_by_pid] returns the record with the requested pid
    that was registered first: every record in front of it in the registry
    has another pid; it returns nothing exactly when no record has that
    pid. *)
Theorem find_mp2_task_by_pid_first_match p s :
  match find_mp2_task_by_pid p s with
  | Some t =>
      pid t = p /\
      exists l1 l2,
        mp2_task_struct_list s = l1 ++ t :: l2 /\
        Forall (fun x => pid x <> p) l1
  | None => unregistered p s
  end.
Proof.
  destruct (find_mp2_task_by_pid p s) as [t |] eqn:E.
  - unfold find_mp2_task_by_pid in E. apply find_first_match in E.
    destruct E as (Hp & l1 & l2 & Hl & Hl1).
    split; [now apply Z.eqb_eq |]. exists l1, l2. split; [assumption |].
    revert Hl1. apply Forall_impl. intros x Hx. now apply Z.eqb_neq.
  - now apply unregistered_lookup.
Qed.

(** The state a successful de-registration produces. *)
Lemma mp2_deregister_process_shape s p tmp :
  find_mp2_task_by_pid p s = Some tmp ->
  In (self tmp) (mp2_rq s) ->
  exists s',
    mp2_deregister_process p s = Some s' /\
    mp2_task_struct_list s' =
      filter (fun t => negb (at_addr (self tmp) t)) (mp2_task_struct_list s) /\
    mp2_rq s' = rq_unlink (self tmp) (mp2_rq s) /\
    mp2_current s' =
      match mp2_current s with
      | Some cur => if Nat.eqb (self tmp) cur then None else Some cur
      | None => None
      end.
Proof.
  intros Hf Hin. unfold mp2_deregister_process. rewrite Hf.
  unfold mp2_remove_task_from_rq. apply linked_In in Hin. rewrite Hin.
  simpl. destruct (mp2_current s) as [cur |] eqn:Ecur.
  - destruct (Nat.eqb (self tmp) cur) eqn:E.
    + eexists. split; [reflexivity |]. simpl. auto.
    + eexists. split; [reflexivity |]. simpl. auto.
  - eexists. split; [reflexivity |]. simpl. auto.
Qed.

(** X3.  A de-registration of a task that is linked in the run queue
    completes and leaves no reference to the freed record: its address is
    no longer in the registry, not in the run queue and not the current
    task.  Every other record is untouched and keeps its place in or out
    of the run queue, and the current task stays current unless it was the
    one removed. *)
Theorem deregister_leaves_no_reference s p tmp :
  find_mp2_task_by_pid p s = Some tmp ->
  In (self tmp) (mp2_rq s) ->
  exists s',
    mp2_deregister_process p s = Some s' /\
    deref s' (self tmp) = None /\
    ~ In (self tmp) (mp2_rq s') /\
    mp2_current s' <> Some (self tmp) /\
    (forall b, b <> self tmp ->
       deref s' b = deref s b /\ (In b (mp2_rq s') <-> In b (mp2_rq s))) /\
    (mp2_current s <> Some (self tmp) -> mp2_current s' = mp2_current s).
Proof.
  intros Hf Hin.
  destruct (mp2_deregister_process_shape s p tmp Hf Hin)
    as (s' & Hs' & Hl & Hq & Hc).
  exists s'. split; [exact Hs' |]. unfold deref. rewrite Hl, Hq, Hc.
  split; [apply find_filter_same |]. split.
  { intros H. apply In_rq_unlink in H. tauto. }
  split.
  { destruct (mp2_current s) as [cur |]; [| discriminate].
    destruct (Nat.eqb (self tmp) cur) eqn:E; [discriminate |].
    apply Nat.eqb_neq in E. congruence. }
  split.
  { intros b Hb. split; [now apply find_filter_other |].
    rewrite In_rq_unlink. tauto. }
  intros Hne. destruct (mp2_current s) as [cur |]; [| reflexivity].
  destruct (Nat.eqb (self tmp) cur) eqn:E; [| reflexivity].
  apply Nat.eqb_eq in E. subst cur. now elim Hne.
Qed.

Section Registry_properties.

Variable find_task_by_pid : Z -> option Z.
Variable msecs_to_jiffies : Z -> Z.
Variable MAX_USER_RT_PRIO : Z.

(** X2.  After a registration that is admitted for a process that exists
    and whose pid was not registered, looking that pid up returns the new
    record, and the lookup of every other pid gives what it gave before. *)
Theorem register_then_lookup s p period comp h :
  mp2_admission_control comp period s = Some true ->
  find_task_by_pid p = Some h ->
  unregistered p s ->
  exists s',
    mp2_register_process find_task_by_pid msecs_to_jiffies
      p period comp s = Some s' /\
    find_mp2_task_by_pid p s'
      = Some (registered_record msecs_to_jiffies p period comp h s) /\
    forall q, q <> p ->
      find_mp2_task_by_pid q s' = find_mp2_task_by_pid q s.
Proof.
  intros Hadm Hh Hun. unfold mp2_register_process. rewrite Hadm, Hh. simpl.
  eexists. split; [reflexivity |]. unfold find_mp2_task_by_pid. simpl.
  apply unregistered_lookup in Hun. unfold find_mp2_task_by_pid in Hun.
  split.
  - rewrite find_app_none by exact Hun. simpl. now rewrite Z.eqb_refl.
  - intros q Hq.
    destruct (find (fun t => pid t =? q) (mp2_task_struct_list s)) eqn:E.
    + now apply find_app_some.
    + rewrite find_app_none by exact E. simpl.
      apply Z.eqb_neq in Hq. rewrite Z.eqb_sym in Hq. now rewrite Hq.
Qed.

(** X4.  A task cannot be de-registered before it has ever been queued:
    right after an admitted registration of a pid that was not registered,
    [mp2_deregister_process] unlinks a run-queue node that was never
    linked, a step for which the embedding has no result. *)
Theorem deregister_right_after_register_is_undefined s p period comp h :
  reachable find_task_by_pid msecs_to_jiffies MAX_USER_RT_PRIO s ->
  mp2_admission_control comp period s = Some true ->
  find_task_by_pid p = Some h ->
  unregistered p s ->
  exists s',
    mp2_register_process find_task_by_pid msecs_to_jiffies
      p period comp s = Some s' /\
    mp2_deregister_process p s' = None.
Proof.
  intros Hr Hadm Hh Hun.
  destruct (register_then_lookup s p period comp h Hadm Hh Hun)
    as (s' & Hs' & Hf & _).
  exists s'. split; [exact Hs' |].
  unfold mp2_deregister_process. rewrite Hf.
  unfold mp2_remove_task_from_rq.
  assert (Hq : mp2_rq s' = mp2_rq s).
  { unfold mp2_register_process in Hs'. rewrite Hadm, Hh in Hs'.
    simpl in Hs'. now inversion Hs'. }
  rewrite Hq. simpl self.
  destruct (linked (kmalloc_next s) (mp2_rq s)) eqn:E; [| reflexivity].
  apply linked_In in E. apply reachable_consistent in Hr.
  destruct Hr as (_ & _ & Hlt & _). apply Hlt in E. lia.
Qed.

(** X5.  Requests and timer expiries for a pid that is not registered
    change nothing: in a reachable state, yield, de-register and the timer
    handler all return the state as it was. *)
Theorem unregistered_pid_changes_nothing s p :
  reachable find_task_by_pid msecs_to_jiffies MAX_USER_RT_PRIO s ->
  unregistered p s ->
  mp2_yield_process p s = Some s /\
  mp2_deregister_process p s = Some s /\
  wakeup_timer_handler p s = Some s.
Proof.
  intros Hr Hun. pose proof Hun as Hnone.
  apply unregistered_lookup in Hnone.
  unfold mp2_yield_process, yield_lookup, mp2_deregister_process,
    wakeup_timer_handler. rewrite Hnone.
  split; [| split; reflexivity].
  destruct (mp2_current s) as [cur |] eqn:Ecur; [| reflexivity].
  pose proof (reachable_current_live _ _ _ s cur Hr Ecur) as Hlive.
  destruct (deref s cur) as [ct |] eqn:Ect; [| now elim Hlive].
  assert (Hp : pid ct <> p).
  { apply deref_In in Ect. unfold unregistered in Hun.
    rewrite Forall_forall in Hun. now apply Hun. }
  apply Z.eqb_neq in Hp. now rewrite Hp.
Qed.

End Registry_properties.

Lemma register_then_lookup_witness :
  exists s',
    sample_exec (Register 1 50 10) (mp2_init_module 0) = Some s' /\
    find_mp2_task_by_pid 1 s'
      = Some (mk_task 0%nat 1 5001 None 10 50 50 MP2_TASK_SLEEPING) /\
    find_mp2_task_by_pid 2 s' = None.
Proof.
  assert (Hadm : mp2_admission_control 10 50 (mp2_init_module 0) = Some true)
    by (vm_compute; reflexivity).
  assert (Hun : unregistered 1 (mp2_init_module 0)) by constructor.
  destruct (register_then_lookup sample_find_task_by_pid
              sample_msecs_to_jiffies (mp2_init_module 0) 1 50 10 5001
              Hadm eq_refl Hun) as (s' & Hs' & Hf & Hother).
  exists s'. split; [exact Hs' |]. split; [exact Hf |].
  rewrite Hother by discriminate. reflexivity.
Defined.

Lemma deregister_leaves_no_reference_witness :
  exists s',
    mp2_deregister_process 1 task1_released = Some s' /\
    deref s' 0%nat = None /\ ~ In 0%nat (mp2_rq s').
Proof.
  assert (Hin : In 0%nat (mp2_rq task1_released)) by (simpl; auto).
  destruct (deregister_leaves_no_reference task1_released 1
              (mk_task 0%nat 1 5001 None 10 50 50 MP2_TASK_READY)
              eq_refl Hin) as (s' & Hs' & Hd & Hq & _).
  exists s'. split; [exact Hs' |]. split; [exact Hd | exact Hq].
Defined.

Lemma deregister_right_after_register_is_undefined_witness :
  exists s',
    sample_exec (Register 1 50 10) (mp2_init_module 0) = Some s' /\
    sample_exec (Deregister 1) s' = None.
Proof.
  assert (Hr : reachable sample_find_task_by_pid sample_msecs_to_jiffies
                 sample_MAX_USER_RT_PRIO (mp2_init_module 0)).
  { constructor. unfold is_u64. lia. }
  assert (Hadm : mp2_admission_control 10 50 (mp2_init_module 0) = Some true)
    by (vm_compute; reflexivity).
  assert (Hun : unregistered 1 (mp2_init_module 0)) by constructor.
  exact (deregister_right_after_register_is_undefined
           sample_find_task_by_pid sample_msecs_to_jiffies
           sample_MAX_USER_RT_PRIO (mp2_init_module 0) 1 50 10 5001
           Hr Hadm eq_refl Hun).
Defined.

Lemma unregistered_pid_changes_nothing_witness :
  mp2_yield_process 9 three_tasks = Some three_tasks /\
  mp2_deregister_process 9 three_tasks = Some three_tasks /\
  wakeup_timer_handler 9 three_tasks = Some three_tasks.
Proof.
  apply (unregistered_pid_changes_nothing sample_find_task_by_pid
           sample_msecs_to_jiffies sample_MAX_USER_RT_PRIO).
  - apply (sample_reachable three_tasks_registered). vm_compute. reflexivity.
  - repeat constructor; discriminate.
Defined.

(** ** What scheduling never touches *)

Lemma map_identity_update_task a f l :
  (forall t, identity (f t) = identity t) ->
  map identity (update_task a f l) = map identity l.
Proof.
  intros Hf. unfold update_task. rewrite map_map. apply map_ext.
  intros t. destruct (at_addr a t); [apply Hf | reflexivity].
Qed.

Lemma identity_scheduling lookup m prio e s s' :
  scheduling_event e = true ->
  mp2_exec lookup m prio e s = Some s' ->
  map identity (mp2_task_struct_list s')
  = map identity (mp2_task_struct_list s).
Proof.
  intros He Hexec.
  apply (scheduling_event_keeps
           (fun s0 => map identity (mp2_task_struct_list s0)
                      = map identity (mp2_task_struct_list s)))
    with (lookup := lookup) (m := m) (prio := prio) (e := e) (s := s);
    try assumption; try reflexivity.
  - intros s0 s1 Hl _ H. now rewrite Hl.
  - intros a st s0 H. simpl. now rewrite map_identity_update_task.
  - intros a tm s0 H. simpl. now rewrite map_identity_update_task.
  - intros a g s0 H. simpl. now rewrite map_identity_update_task.
  - intros tmp s0 s1 H Hadd. apply mp2_add_task_to_rq_effect in Hadd.
    destruct Hadd as (t & q1 & q2 & _ & _ & _ & ->). simpl.
    now rewrite map_identity_update_task.
  - intros tmp s0 H _. exact H.
Qed.

Lemma identity_utilization l : forall l',
  map identity l' = map identity l ->
  registry_utilization l' = registry_utilization l /\
  (Forall (fun t => exact_range (C t) (P t)) l ->
   Forall (fun t => exact_range (C t) (P t)) l').
Proof.
  induction l as [| t l IH]; intros [| t' l'] H; try discriminate H.
  - split; [reflexivity | auto].
  - simpl in H. inversion H as [[H1 H2 H3 H4 H5 H6]].
    destruct (IH l' H6) as [IHu IHf].
    rewrite !registry_utilization_cons, IHu, H4, H5.
    split; [reflexivity |]. intros Hall.
    inversion Hall; subst. constructor; [congruence | auto].
Qed.

(** X6.  Yield, timer expiry, the dispatcher and the clock never add,
    remove or reorder registry records and never change a record's
    address, pid, process handle, computation time or period; the
    registered utilization is therefore the same before and after. *)
Theorem scheduling_keeps_registry_identity lookup m prio e s s' :
  scheduling_event e = true ->
  mp2_exec lookup m prio e s = Some s' ->
  map identity (mp2_task_struct_list s')
    = map identity (mp2_task_struct_list s) /\
  registry_utilization (mp2_task_struct_list s')
    = registry_utilization (mp2_task_struct_list s).
Proof.
  intros He Hexec.
  pose proof (identity_scheduling lookup m prio e s s' He Hexec) as Hid.
  split; [exact Hid |]. now apply identity_utilization.
Qed.

Lemma scheduling_keeps_registry_identity_witness :
  exists s',
    sample_exec Dispatcher task1_running_task2_released = Some s' /\
    map identity (mp2_task_struct_list s')
      = [(0%nat, 1, 5001, 10, 50); (1%nat, 2, 5002, 5, 20)] /\
    registry_utilization (mp2_task_struct_list s') = 450.
Proof.
  destruct (sample_exec Dispatcher task1_running_task2_released)
    as [s' |] eqn:E; [| vm_compute in E; discriminate E].
  destruct (scheduling_keeps_registry_identity sample_find_task_by_pid
              sample_msecs_to_jiffies sample_MAX_USER_RT_PRIO
              Dispatcher task1_running_task2_released s' eq_refl E)
    as [Hid Hu].
  exists s'. split; [reflexivity |]. split.
  - rewrite Hid. reflexivity.
  - rewrite Hu. reflexivity.
Defined.

(** ** The utilization bound along executions *)

Lemma registry_utilization_app l1 l2 :
  registry_utilization (l1 ++ l2)
  = registry_utilization l1 + registry_utilization l2.
Proof.
  induction l1 as [| t l1 IH].
  - unfold registry_utilization. simpl. lia.
  - change ((t :: l1) ++ l2) with (t :: (l1 ++ l2)).
    rewrite !registry_utilization_cons, IH. lia.
Qed.

Lemma registry_utilization_filter f l :
  Forall (fun t => exact_range (C t) (P t)) l ->
  Forall (fun t => exact_range (C t) (P t)) (filter f l) /\
  registry_utilization (filter f l) <= registry_utilization l.
Proof.
  induction 1 as [| t l Ht Hl [IHf IHu]].
  - simpl. split; [constructor | lia].
  - pose proof (exact_term_nonneg _ _ Ht) as Hn. cbn [filter].
    rewrite registry_utilization_cons. destruct (f t).
    + rewrite registry_utilization_cons. split; [now constructor | lia].
    + split; [assumption | lia].
Qed.

Lemma exact_term_small c p : exact_range c p -> 1000 * c / p < 2 ^ 32.
Proof.
  intros (Hc & Hw & Hp).
  assert (1000 * c / p <= 1000 * c); [| lia].
  apply Z.div_le_upper_bound; nia.
Qed.

Lemma mp2_deregister_process_registry p s s' :
  mp2_deregister_process p s = Some s' ->
  exists f, mp2_task_struct_list s' = filter f (mp2_task_struct_list s).
Proof.
  unfold mp2_deregister_process.
  destruct (find_mp2_task_by_pid p s) as [tmp |].
  - destruct (mp2_remove_task_from_rq (self tmp) s) as [s1 |] eqn:E1;
      [| discriminate].
    apply mp2_remove_task_from_rq_effect in E1. destruct E1 as [_ ->].
    intros H. inversion H; subst s'; clear H.
    exists (fun t => negb (at_addr (self tmp) t)). simpl.
    destruct (mp2_current s) as [cur |]; [| reflexivity].
    destruct (Nat.eqb (self tmp) cur); reflexivity.
  - intros H. inversion H; subst s'. exists (fun _ => true).
    symmetry. apply forallb_filter_id. now apply forallb_forall.
Qed.

(** The admitted task set: every record in the exact range and the
    registered utilization within the bound. *)
Lemma bounded_step lookup m prio e s s' :
  request_in_range e ->
  Forall (fun t => exact_range (C t) (P t)) (mp2_task_struct_list s) ->
  registry_utilization (mp2_task_struct_list s) <= 693 ->
  mp2_exec lookup m prio e s = Some s' ->
  Forall (fun t => exact_range (C t) (P t)) (mp2_task_struct_list s') /\
  registry_utilization (mp2_task_struct_list s') <= 693.
Proof.
  intros He Hl Hu Hexec.
  destruct (scheduling_event e) eqn:Es.
  - pose proof (identity_scheduling lookup m prio e s s' Es Hexec) as Hid.
    destruct (identity_utilization _ _ Hid) as [Hsame Hall].
    rewrite Hsame. auto.
  - destruct e as [p period comp | p | p | a | |]; try discriminate Es;
      simpl in He, Hexec.
    + unfold mp2_register_process in Hexec.
      pose proof (exact_term_small _ _ He) as Hsmall.
      rewrite (mp2_admission_control_exact comp period s He Hl) in Hexec
        by (unfold spec_utilization; lia).
      destruct (spec_utilization comp period (mp2_task_struct_list s)
                <=? 693) eqn:Eu; simpl in Hexec.
      2:{ inversion Hexec; subst s'. auto. }
      destruct (lookup p) as [h |].
      2:{ inversion Hexec; subst s'. auto. }
      inversion Hexec; subst s'; clear Hexec.
      cbn [mp2_task_struct_list]. split.
      * apply Forall_app. split; [assumption |].
        constructor; [exact He | constructor].
      * rewrite registry_utilization_app, registry_utilization_cons.
        apply Z.leb_le in Eu. unfold spec_utilization in Eu.
        change (registry_utilization []) with 0.
        change (C (registered_record m p period comp h s)) with comp.
        change (P (registered_record m p period comp h s)) with period.
        lia.
    + apply mp2_deregister_process_registry in Hexec.
      destruct Hexec as [f ->].
      destruct (registry_utilization_filter f _ Hl) as [Hf Hle].
      split; [assumption | lia].
Qed.

Section Utilization_properties.

Variable find_task_by_pid : Z -> option Z.
Variable msecs_to_jiffies : Z -> Z.
Variable MAX_USER_RT_PRIO : Z.

Lemma bounded_run es : forall s s',
  Forall request_in_range es ->
  Forall (fun t => exact_range (C t) (P t)) (mp2_task_struct_list s) ->
  registry_utilization (mp2_task_struct_list s) <= 693 ->
  mp2_run find_task_by_pid msecs_to_jiffies MAX_USER_RT_PRIO es s = Some s' ->
  Forall (fun t => exact_range (C t) (P t)) (mp2_task_struct_list s') /\
  registry_utilization (mp2_task_struct_list s') <= 693.
Proof.
  induction es as [| e es IH]; simpl; intros s s' Hes Hl Hu Hrun.
  - inversion Hrun; subst. auto.
  - inversion Hes as [| ? ? He Hes']; subst.
    destruct (mp2_exec _ _ _ e s) as [s1 |] eqn:E; [| discriminate].
    destruct (bounded_step _ _ _ e s s1 He Hl Hu E) as [Hl1 Hu1].
    now apply (IH s1).
Qed.

(** X7.  The module never holds an over-utilized task set: after any
    sequence of events in which every registration request has a non-zero
    period and a computation time whose product with 1000 fits an unsigned
    int, the sum of 1000*C/P over the registered tasks is at most 693. *)
Theorem admitted_utilization_bounded j0 es s :
  Forall request_in_range es ->
  mp2_run find_task_by_pid msecs_to_jiffies MAX_USER_RT_PRIO
    es (mp2_init_module j0) = Some s ->
  Forall (fun t => exact_range (C t) (P t)) (mp2_task_struct_list s) /\
  registry_utilization (mp2_task_struct_list s) <= 693.
Proof.
  intros Hes Hrun.
  apply (bounded_run es (mp2_init_module j0)); [exact Hes | | | exact Hrun].
  - constructor.
  - unfold registry_utilization. simpl. lia.
Qed.

End Utilization_properties.

(** X8.  De-registration never costs admissibility: when the registered
    tasks are in the exact range and within the bound, a candidate that
    admission control accepts before a de-registration is still accepted
    after it. *)
Theorem deregistration_keeps_admissible s s' p c per :
  exact_range c per ->
  Forall (fun t => exact_range (C t) (P t)) (mp2_task_struct_list s) ->
  registry_utilization (mp2_task_struct_list s) <= 693 ->
  mp2_admission_control c per s = Some true ->
  mp2_deregister_process p s = Some s' ->
  mp2_admission_control c per s' = Some true.
Proof.
  intros Hc Hl Hu Hadm Hd.
  pose proof (exact_term_small _ _ Hc) as Hsmall.
  apply mp2_deregister_process_registry in Hd. destruct Hd as [f Hf].
  destruct (registry_utilization_filter f _ Hl) as [Hl' Hle].
  rewrite <- Hf in Hl', Hle.
  rewrite (mp2_admission_control_exact c per s Hc Hl) in Hadm
    by (unfold spec_utilization; lia).
  rewrite (mp2_admission_control_exact c per s' Hc Hl')
    by (unfold spec_utilization; lia).
  inversion Hadm as [Hle1]. rewrite Hle1. f_equal.
  apply Z.leb_le in Hle1. apply Z.leb_le.
  unfold spec_utilization in *. lia.
Qed.

Lemma admitted_utilization_bounded_witness :
  exists s,
    sample_run (three_tasks_registered ++ [Register 4 10 9])
      (mp2_init_module 0) = Some s /\
    map pid (mp2_task_struct_list s) = [1; 2; 3] /\
    registry_utilization (mp2_task_struct_list s) <= 693.
Proof.
  destruct (sample_run (three_tasks_registered ++ [Register 4 10 9])
              (mp2_init_module 0)) as [s |] eqn:E;
    [| vm_compute in E; discriminate E].
  assert (Hes : Forall request_in_range
                  (three_tasks_registered ++ [Register 4 10 9])).
  { repeat constructor; simpl; lia. }
  destruct (admitted_utilization_bounded sample_find_task_by_pid
              sample_msecs_to_jiffies sample_MAX_USER_RT_PRIO
              0 _ s Hes E) as [_ Hu].
  exists s. split; [reflexivity |]. split; [| exact Hu].
  vm_compute in E. inversion E. reflexivity.
Defined.

Lemma deregistration_keeps_admissible_witness :
  exists s',
    mp2_deregister_process 1 task1_released = Some s' /\
    mp2_admission_control 20 50 task1_released = Some true /\
    mp2_admission_control 20 50 s' = Some true.
Proof.
  destruct (mp2_deregister_process 1 task1_released) as [s' |] eqn:E;
    [| vm_compute in E; discriminate E].
  assert (Hc : exact_range 20 50) by (unfold exact_range; lia).
  assert (Hl : Forall (fun t => exact_range (C t) (P t))
                      (mp2_task_struct_list task1_released)).
  { repeat constructor; simpl; lia. }
  assert (Hu : registry_utilization (mp2_task_struct_list task1_released)
               <= 693) by (vm_compute; discriminate).
  assert (Hadm : mp2_admission_control 20 50 task1_released = Some true)
    by (vm_compute; reflexivity).
  exists s'. split; [reflexivity |]. split; [exact Hadm |].
  exact (deregistration_keeps_admissible task1_released s' 1 20 50
           Hc Hl Hu Hadm E).
Defined.

(** ** The run queue and the dispatcher along executions *)


Section Execution_properties.

Variable find_task_by_pid : Z -> option Z.
Variable msecs_to_jiffies : Z -> Z.
Variable MAX_USER_RT_PRIO : Z.




(** X12.  A dispatcher cycle that follows a dispatcher cycle changes
    nothing: a second wake-up of the dispatcher with no event in between
    neither advances a release time again nor issues another call to the
    OS scheduler. *)
Theorem dispatcher_cycle_idempotent s s' :
  mp2_sched_kthread_cycle msecs_to_jiffies MAX_USER_RT_PRIO s = Some s' ->
  mp2_sched_kthread_cycle msecs_to_jiffies MAX_USER_RT_PRIO s' = Some s'.
Proof.
  intros H.
  assert (Hdisp : forall T rest s0 s1,
            mp2_rq s0 = T :: rest ->
            dispatch msecs_to_jiffies MAX_USER_RT_PRIO T s0 = Some s1 ->
            mp2_sched_kthread_cycle msecs_to_jiffies MAX_USER_RT_PRIO s1
            = Some s1).
  { intros T rest s0 s1 Hrq Hd.
    destruct (deref s0 T) as [t |] eqn:Et;
      [| unfold dispatch in Hd; rewrite Et in Hd; discriminate].
    destruct (dispatch_effect msecs_to_jiffies MAX_USER_RT_PRIO s0 T t Et)
      as (s2 & Hs2 & Hq & Hc & _ & HdT & _).
    rewrite Hs2 in Hd. inversion Hd; subst s2.
    unfold mp2_sched_kthread_cycle. rewrite Hq, Hrq, HdT, Hc, HdT.
    destruct (_ >? _) eqn:E; [lia | reflexivity]. }
  pose proof H as H0. unfold mp2_sched_kthread_cycle in H.
  destruct (mp2_rq s) as [| first rest] eqn:Hrq.
  { inversion H; subst s'. exact H0. }
  destruct (deref s first) as [tmp |]; [| discriminate].
  destruct (mp2_current s) as [cur |].
  - destruct (deref s cur) as [ct |]; [| discriminate].
    destruct (P ct >? P tmp).
    + eapply (Hdisp first rest); [| exact H]. exact Hrq.
    + inversion H; subst s'. exact H0.
  - apply (Hdisp first rest s s' Hrq H).
Qed.


End Execution_properties.





Lemma dispatcher_cycle_idempotent_witness :
  sample_exec Dispatcher task1_running_task2_released
    = Some task2_running_task1_preempted /\
  sample_exec Dispatcher task2_running_task1_preempted
    = Some task2_running_task1_preempted.
Proof.
  assert (H : sample_exec Dispatcher task1_running_task2_released
              = Some task2_running_task1_preempted)
    by (vm_compute; reflexivity).
  split; [exact H |].
  exact (dispatcher_cycle_idempotent sample_msecs_to_jiffies
           sample_MAX_USER_RT_PRIO task1_running_task2_released
           task2_running_task1_preempted H).
Defined.


(** ** Release by the timer, and yield, as whole operations *)



Lemma ticks_advance_clock lookup m prio k : forall s s',
  mp2_run lookup m prio (repeat Tick k) s = Some s' ->
  0 <= jiffies s -> jiffies s + Z.of_nat k < 2 ^ 64 ->
  jiffies s' = jiffies s + Z.of_nat k /\
  mp2_task_struct_list s' = mp2_task_struct_list s.
Proof.
  induction k as [| k IH]; intros s s' H H0 Hb.
  - simpl in H. inversion H; subst. split; [simpl; lia | reflexivity].
  - cbn [repeat mp2_run mp2_exec] in H.
    apply IH in H.
    + cbn [jiffies set_jiffies mp2_task_struct_list] in H.
      unfold wrap_u64 in H. rewrite Z.mod_small in H by lia.
      destruct H as [Hj Hl]. split; [lia | exact Hl].
    + cbn [jiffies set_jiffies]. unfold wrap_u64. apply Z.mod_pos_bound. lia.
    + cbn [jiffies set_jiffies]. unfold wrap_u64.
      rewrite Z.mod_small by lia. lia.
Qed.

Lemma yield_before_release_clock tmp s s' :
  yield_before_release tmp s = Some s' -> jiffies s' = jiffies s.
Proof.
  unfold yield_before_release. cbv zeta.
  destruct (mp2_current _) as [cur |]; [| now intros [= <-]].
  destruct (deref _ cur) as [ct |]; [| discriminate].
  destruct (pid ct =? pid tmp); [| now intros [= <-]].
  destruct (mp2_remove_task_from_rq _ _) as [s3 |] eqn:E; [| discriminate].
  apply mp2_remove_task_from_rq_effect in E. destruct E as [_ ->].
  now intros [= <-].
Qed.

(** The early yield of the current task, as a whole request. *)
Lemma mp2_yield_process_of_current s a t :
  mp2_current s = Some a -> deref s a = Some t -> In a (mp2_rq s) ->
  is_u64 (jiffies s) -> is_u64 (next_period t) ->
  jiffies s < next_period t ->
  exists s',
    mp2_yield_process (pid t) s = Some s' /\
    jiffies s' = jiffies s /\
    deref s' a = Some (with_timer (Some (next_period t))
                         (with_state MP2_TASK_SLEEPING t)) /\
    mp2_rq s' = rq_unlink a (mp2_rq s) /\
    mp2_current s' = None /\
    os_log s' = os_log s ++
      [Wake_up_waitqueue; Sched_setscheduler (task t) SCHED_NORMAL 0;
       Set_task_uninterruptible (task t); Schedule].
Proof.
  intros Hcur Ht Hin Hj Hnp Hlt.
  destruct (yield_before_release_of_current s a t Hcur Ht Hin Hj Hnp Hlt)
    as (s1 & Hs1 & Hd & Hq & _ & Hc & Hlog).
  pose proof (yield_before_release_clock _ _ _ Hs1) as Hj1.
  unfold mp2_yield_process, yield_lookup. rewrite Hcur, Ht, Z.eqb_refl.
  assert (E : (jiffies s <? next_period t) = true) by lia.
  rewrite E, Hs1. eexists. split; [reflexivity |].
  simpl. rewrite Hlog, <- !app_assoc. simpl. auto.
Qed.

(** X15.  When the current task yields before its release time, the whole
    request completes with the task SLEEPING, its timer pending for
    exactly its release time, the task unlinked from the run queue, the
    current slot empty, and the dispatcher woken before the task's
    priority is lowered and its thread suspended. *)
Theorem yield_of_current_before_release s a t :
  mp2_current s = Some a -> deref s a = Some t -> In a (mp2_rq s) ->
  is_u64 (jiffies s) -> is_u64 (next_period t) ->
  jiffies s < next_period t ->
  exists s',
    mp2_yield_process (pid t) s = Some s' /\
    deref s' a = Some (with_timer (Some (next_period t))
                         (with_state MP2_TASK_SLEEPING t)) /\
    mp2_rq s' = rq_unlink a (mp2_rq s) /\
    ~ In a (mp2_rq s') /\
    mp2_current s' = None /\
    os_log s' = os_log s ++
      [Wake_up_waitqueue; Sched_setscheduler (task t) SCHED_NORMAL 0;
       Set_task_uninterruptible (task t); Schedule].
Proof.
  intros Hcur Ht Hin Hj Hnp Hlt.
  destruct (mp2_yield_process_of_current s a t Hcur Ht Hin Hj Hnp Hlt)
    as (s' & Hs' & _ & Hd & Hq & Hc & Hlog).
  exists s'. split; [exact Hs' |]. split; [exact Hd |].
  split; [exact Hq |]. split; [| split; assumption].
  rewrite Hq. intros H. apply In_rq_unlink in H. tauto.
Qed.

Section Release_and_yield.

Variable find_task_by_pid : Z -> option Z.
Variable msecs_to_jiffies : Z -> Z.
Variable MAX_USER_RT_PRIO : Z.


(** X16.  A task that yields as the current task before its release time
    is released at that time and not earlier: after any number of clock
    ticks (short of a wrap of the 64-bit clock) its timer is due exactly
    when the clock has reached the release time. *)
Theorem release_exactly_at_next_period s a t s1 k s2 :
  mp2_current s = Some a -> deref s a = Some t -> In a (mp2_rq s) ->
  is_u64 (jiffies s) -> is_u64 (next_period t) ->
  jiffies s < next_period t ->
  mp2_yield_process (pid t) s = Some s1 ->
  mp2_run find_task_by_pid msecs_to_jiffies MAX_USER_RT_PRIO
    (repeat Tick k) s1 = Some s2 ->
  jiffies s + Z.of_nat k < 2 ^ 64 ->
  timer_expired a s2 = (next_period t <=? jiffies s + Z.of_nat k).
Proof.
  intros Hcur Ht Hin Hj Hnp Hlt Hy Hrun Hk.
  destruct (mp2_yield_process_of_current s a t Hcur Ht Hin Hj Hnp Hlt)
    as (s' & Hs' & Hj' & Hd & _).
  rewrite Hy in Hs'. inversion Hs'; subst s'.
  destruct (ticks_advance_clock _ _ _ k s1 s2 Hrun) as [Hj2 Hl2].
  - unfold is_u64 in Hj. lia.
  - lia.
  - unfold timer_expired, deref. rewrite Hl2.
    unfold deref in Hd. rewrite Hd. simpl. now rewrite Hj2, Hj'.
Qed.


End Release_and_yield.



Lemma yield_of_current_before_release_witness :
  exists s',
    mp2_yield_process 2 task2_running_task1_preempted = Some s' /\
    deref s' 1%nat
    = Some (mk_task 1%nat 2 5002 (Some 80) 5 20 80 MP2_TASK_SLEEPING) /\
    mp2_rq s' = rq_unlink 1%nat (mp2_rq task2_running_task1_preempted) /\
    ~ In 1%nat (mp2_rq s') /\
    mp2_current s' = None /\
    os_log s' = os_log task2_running_task1_preempted ++
      [Wake_up_waitqueue; Sched_setscheduler 5002 SCHED_NORMAL 0;
       Set_task_uninterruptible 5002; Schedule].
Proof.
  apply (yield_of_current_before_release task2_running_task1_preempted 1%nat
           (mk_task 1%nat 2 5002 None 5 20 80 MP2_TASK_RUNNING)).
  - reflexivity.
  - reflexivity.
  - simpl. tauto.
  - unfold is_u64. simpl. lia.
  - unfold is_u64. simpl. lia.
  - simpl. lia.
Defined.

Lemma release_exactly_at_next_period_witness :
  exists s1 s2 s3,
    mp2_yield_process 2 task2_running_task1_preempted = Some s1 /\
    sample_run (repeat Tick 19) s1 = Some s2 /\
    sample_run (repeat Tick 20) s1 = Some s3 /\
    timer_expired 1%nat s2 = false /\
    timer_expired 1%nat s3 = true.
Proof.
  destruct (mp2_yield_process 2 task2_running_task1_preempted)
    as [s1 |] eqn:E1; [| vm_compute in E1; discriminate].
  destruct (sample_run (repeat Tick 19) s1) as [s2 |] eqn:E2;
    [| vm_compute in E1; inversion E1; subst s1;
       vm_compute in E2; discriminate].
  destruct (sample_run (repeat Tick 20) s1) as [s3 |] eqn:E3;
    [| vm_compute in E1; inversion E1; subst s1;
       vm_compute in E3; discriminate].
  exists s1, s2, s3.
  split; [reflexivity |]. split; [exact E2 |]. split; [exact E3 |].
  assert (Hlt : jiffies task2_running_task1_preempted < 80)
    by (simpl; lia).
  assert (Hu : is_u64 (jiffies task2_running_task1_preempted) /\ is_u64 80)
    by (unfold is_u64; simpl; lia).
  assert (Hin : In 1%nat (mp2_rq task2_running_task1_preempted))
    by (simpl; tauto).
  split.
  - rewrite (release_exactly_at_next_period sample_find_task_by_pid
               sample_msecs_to_jiffies sample_MAX_USER_RT_PRIO
               task2_running_task1_preempted 1%nat
               (mk_task 1%nat 2 5002 None 5 20 80 MP2_TASK_RUNNING)
               s1 19%nat s2 eq_refl eq_refl Hin (proj1 Hu) (proj2 Hu)
               Hlt E1 E2).
    + reflexivity.
    + simpl. lia.
  - rewrite (release_exactly_at_next_period sample_find_task_by_pid
               sample_msecs_to_jiffies sample_MAX_USER_RT_PRIO
               task2_running_task1_preempted 1%nat
               (mk_task 1%nat 2 5002 None 5 20 80 MP2_TASK_RUNNING)
               s1 20%nat s3 eq_refl eq_refl Hin (proj1 Hu) (proj2 Hu)
               Hlt E1 E3).
    + reflexivity.
    + simpl. lia.
Defined.


(** ** The status file *)

Section Status_file.

Variable PAGE_SIZE : Z.

Local Abbreviation put := (sprintf PAGE_SIZE).
Local Abbreviation entries := (read_entries PAGE_SIZE).

Lemma sprintf_effect text page page' :
  put text page = Some page' ->
  page' = page ++ text /\ Z.of_nat (length page') <= INT_MAX.
Proof.
  unfold sprintf.
  destruct (_ <? PAGE_SIZE) eqn:E1; [| discriminate].
  destruct (_ <=? INT_MAX) eqn:E2; [| discriminate].
  simpl. intros [= <-]. split; [reflexivity |].
  rewrite length_app. lia.
Qed.

(** Two texts written one after the other fit exactly when their
    concatenation fits. *)
Lemma sprintf_app a b page :
  put (a ++ b) page = (page1 <- put a page ;; put b page1).
Proof.
  unfold sprintf.
  destruct ((Z.of_nat (length page) + Z.of_nat (length a) <? PAGE_SIZE)
            && (Z.of_nat (length page) + Z.of_nat (length a) <=? INT_MAX))
    eqn:E1.
  - rewrite !length_app, !Nat2Z.inj_add, Z.add_assoc, app_assoc.
    reflexivity.
  - destruct ((Z.of_nat (length page) + Z.of_nat (length (a ++ b))
               <? PAGE_SIZE)
              && (Z.of_nat (length page) + Z.of_nat (length (a ++ b))
                  <=? INT_MAX)) eqn:E2; [| reflexivity].
    exfalso. rewrite length_app in E2.
    apply andb_prop in E2. destruct E2 as [H1 H2].
    apply Z.ltb_lt in H1. apply Z.leb_le in H2.
    apply andb_false_iff in E1.
    destruct E1 as [E1 | E1];
      [apply Z.ltb_ge in E1 | apply Z.leb_gt in E1]; lia.
Qed.

Lemma process_line_length i : (2 <= length (process_line i))%nat.
Proof.
  unfold process_line. rewrite length_app. simpl. lia.
Qed.

(** One pass of the loop body as a single write. *)
Lemma read_entries_cons t rest i page :
  entries (t :: rest) i page
  = (page' <- put (process_line i ++ pid_line (pid t) ++
                   period_line (P t) ++ computation_line (C t)) page ;;
     entries rest (wrap_int (i + 1)) page').
Proof.
  cbn [read_entries]. rewrite sprintf_app.
  destruct (put (process_line i) page) as [p1 |]; [| reflexivity].
  rewrite sprintf_app.
  destruct (put (pid_line (pid t)) p1) as [p2 |]; [| reflexivity].
  rewrite sprintf_app.
  destruct (put (period_line (P t)) p2) as [p3 |]; reflexivity.
Qed.

(** The text depends on the pid, period and computation time of the
    records and on their order, and on nothing else. *)
Lemma read_entries_identity l : forall l' i page,
  map identity l = map identity l' -> entries l i page = entries l' i page.
Proof.
  induction l as [| t l IH]; intros [| t' l'] i page H;
    try discriminate H; [reflexivity |].
  unfold identity in H. cbn [map] in H. injection H as _ Hp _ Hc Hper Hl.
  cbn [read_entries]. rewrite Hp, Hc, Hper.
  destruct (put _ page) as [p1 |]; [| reflexivity].
  destruct (put _ p1) as [p2 |]; [| reflexivity].
  destruct (put _ p2) as [p3 |]; [| reflexivity].
  destruct (put _ p3) as [p4 |]; [| reflexivity].
  now apply IH.
Qed.

(** While the page is filled the counter is the number of the entry: it
    cannot leave the range of [int] before the page length does. *)
Lemma read_entries_snoc t l : forall i page,
  1 <= i -> 2 * (i - 1) <= Z.of_nat (length page) ->
  entries (l ++ [t]) i page
  = (page' <- entries l i page ;;
     entries [t] (i + Z.of_nat (length l)) page').
Proof.
  induction l as [| a l IH]; intros i page Hi Hlen.
  - cbn [app length read_entries]. now rewrite Z.add_0_r.
  - cbn [app]. rewrite !read_entries_cons.
    destruct (put _ page) as [p1 |] eqn:E; [| reflexivity].
    apply sprintf_effect in E. destruct E as [-> Hmax].
    rewrite !length_app in Hmax.
    pose proof (process_line_length i) as H2.
    assert (Hw : wrap_int (i + 1) = i + 1).
    { unfold wrap_int, INT_MAX in *. rewrite Z.mod_small; lia. }
    rewrite Hw, IH.
    + replace (i + 1 + Z.of_nat (length l))
        with (i + Z.of_nat (length (a :: l))) by (cbn [length]; lia).
      reflexivity.
    + lia.
    + rewrite !length_app. lia.
Qed.

Section Status_file_and_events.

Variable find_task_by_pid : Z -> option Z.
Variable msecs_to_jiffies : Z -> Z.
Variable MAX_USER_RT_PRIO : Z.

(** X18.  A yield, a timer expiry, a dispatcher cycle or a clock tick
    never changes what a read of the status file returns: the text lists
    pids, periods and computation times in registration order and shows
    nothing of the scheduling state. *)
Theorem status_file_unchanged_by_scheduling e s s' :
  scheduling_event e = true ->
  mp2_exec find_task_by_pid msecs_to_jiffies MAX_USER_RT_PRIO e s
    = Some s' ->
  mp2_read_proc PAGE_SIZE s' = mp2_read_proc PAGE_SIZE s.
Proof.
  intros He Hexec. unfold mp2_read_proc.
  rewrite (read_entries_identity (mp2_task_struct_list s')
             (mp2_task_struct_list s)).
  - reflexivity.
  - eapply identity_scheduling; eassumption.
Qed.

(** X19.  An accepted registration appends exactly one entry to the
    status file: when the file could be read before, the new text is the
    old text followed by the four lines of the new task, numbered one more
    than the number of tasks registered before, with the pid, period and
    computation time of the request; the read fails only when that entry
    no longer fits the page. *)
Theorem registration_appends_one_status_entry p period comp h s s' page len :
  mp2_admission_control comp period s = Some true ->
  find_task_by_pid p = Some h ->
  mp2_register_process find_task_by_pid msecs_to_jiffies p period comp s
    = Some s' ->
  mp2_read_proc PAGE_SIZE s = Some (page, len) ->
  mp2_read_proc PAGE_SIZE s'
  = (page' <- sprintf PAGE_SIZE
                (process_line
                   (Z.of_nat (length (mp2_task_struct_list s)) + 1) ++
                 pid_line p ++ period_line period ++ computation_line comp)
                page ;;
     Some (page', Z.of_nat (length page'))).
Proof.
  intros Hadm Hh Hreg Hread.
  unfold mp2_register_process in Hreg. rewrite Hadm, Hh in Hreg.
  cbn [negb] in Hreg. injection Hreg as <-.
  unfold mp2_read_proc in *. cbn [mp2_task_struct_list].
  destruct (entries (mp2_task_struct_list s) 1 []) as [pg |] eqn:E;
    [| discriminate].
  injection Hread as -> _.
  rewrite read_entries_snoc by (simpl; lia).
  rewrite E, read_entries_cons. cbn [read_entries].
  change (pid (registered_record msecs_to_jiffies p period comp h s))
    with p.
  change (P (registered_record msecs_to_jiffies p period comp h s))
    with period.
  change (C (registered_record msecs_to_jiffies p period comp h s))
    with comp.
  replace (1 + Z.of_nat (length (mp2_task_struct_list s)))
    with (Z.of_nat (length (mp2_task_struct_list s)) + 1) by lia.
  destruct (put _ page) as [page' |]; reflexivity.
Qed.

End Status_file_and_events.

End Status_file.

(** ** The text of a registration request *)

Lemma firstn_app_length {A} (a r : list A) : firstn (length a) (a ++ r) = a.
Proof.
  induction a as [| x a IH]; simpl; [reflexivity | now rewrite IH].
Qed.

Lemma skipn_app_length {A} (a r : list A) k :
  skipn (length a + k) (a ++ r) = skipn k r.
Proof.
  induction a as [| x a IH]; simpl; [reflexivity | exact IH].
Qed.

Lemma strchr_found a c rest :
  ~ In c a -> ~ In NUL a -> strchr (a ++ c :: rest) c = Some (length a).
Proof.
  induction a as [| x a IH]; intros Hc Hn; cbn [app strchr length].
  - now rewrite Ascii.eqb_refl.
  - assert (E1 : Ascii.eqb x c = false)
      by (apply Ascii.eqb_neq; intros ->; apply Hc; now left).
    assert (E2 : Ascii.eqb x NUL = false)
      by (apply Ascii.eqb_neq; intros ->; apply Hn; now left).
    rewrite E1, E2, IH; [reflexivity | |]; intros H; [apply Hc | apply Hn];
      now right.
Qed.

Lemma strchr_split c : forall s i,
  strchr s c = Some i ->
  exists rest,
    s = firstn i s ++ c :: rest /\ skipn (i + 1) s = rest /\
    ~ In c (firstn i s) /\ ~ In NUL (firstn i s).
Proof.
  induction s as [| x s IH]; intros i H; cbn [strchr] in H; [discriminate |].
  destruct (Ascii.eqb x c) eqn:E1.
  - injection H as <-. apply Ascii.eqb_eq in E1. subst x.
    exists s. simpl. auto.
  - destruct (Ascii.eqb x NUL) eqn:E2; [discriminate |].
    destruct (strchr s c) as [j |] eqn:Ej; [| discriminate].
    injection H as <-. destruct (IH j eq_refl) as (rest & Hs & Hk & Hc & Hn).
    exists rest. cbn [firstn skipn Nat.add app]. split; [now f_equal |].
    split; [exact Hk |].
    apply Ascii.eqb_neq in E1. apply Ascii.eqb_neq in E2.
    split; intros [-> | Hin]; auto.
Qed.

(** X20.  A registration request is cut into its three fields by
    position: the first three bytes and the byte after each comma are
    skipped without being looked at, the pid runs to the first comma, the
    period to the next comma and the computation time to the first full
    stop; whatever follows the full stop is ignored. *)
Theorem register_request_fields h x y a b c rest :
  length h = 3%nat ->
  ~ In comma a -> ~ In NUL a ->
  ~ In comma b -> ~ In NUL b ->
  ~ In full_stop c -> ~ In NUL c ->
  register_fields
    (h ++ a ++ comma :: x :: b ++ comma :: y :: c ++ full_stop :: rest)
  = Some (a, b, c).
Proof.
  intros Hh Ha Ha0 Hb Hb0 Hc Hc0. unfold register_fields.
  replace 3%nat with (length h + 0)%nat by lia.
  rewrite skipn_app_length. cbn [skipn].
  rewrite (strchr_found a comma _ Ha Ha0).
  rewrite skipn_app_length, firstn_app_length. cbn [skipn].
  rewrite (strchr_found b comma _ Hb Hb0).
  rewrite skipn_app_length, firstn_app_length. cbn [skipn].
  rewrite (strchr_found c full_stop _ Hc Hc0).
  rewrite firstn_app_length. reflexivity.
Qed.

(** X21.  Only requests of that shape get as far as the conversion of
    their fields: when the three fields are cut out, the request consists
    of three bytes, the pid field, a comma and one more byte, the period
    field, a comma and one more byte, the computation-time field and a
    full stop, and no field contains its delimiter or a NUL. *)
Theorem register_request_shape user_data a b c :
  register_fields user_data = Some (a, b, c) ->
  exists h x y rest,
    length h = 3%nat /\
    user_data
    = h ++ a ++ comma :: x :: b ++ comma :: y :: c ++ full_stop :: rest /\
    ~ In comma a /\ ~ In NUL a /\
    ~ In comma b /\ ~ In NUL b /\
    ~ In full_stop c /\ ~ In NUL c.
Proof.
  unfold register_fields. intros H.
  destruct (strchr (skipn 3 user_data) comma) as [i1 |] eqn:E1;
    [| discriminate].
  destruct (strchr (skipn (i1 + 2) (skipn 3 user_data)) comma)
    as [i2 |] eqn:E2; [| discriminate].
  destruct (strchr (skipn (i2 + 2)
                      (skipn (i1 + 2) (skipn 3 user_data))) full_stop)
    as [i3 |] eqn:E3; [| discriminate].
  injection H as <- <- <-.
  set (d1 := skipn 3 user_data) in *.
  set (d2 := skipn (i1 + 2) d1) in *.
  set (d3 := skipn (i2 + 2) d2) in *.
  destruct (strchr_split _ _ _ E1) as (r1 & Hd1 & Hk1 & Ha & Ha0).
  destruct (strchr_split _ _ _ E2) as (r2 & Hd2 & Hk2 & Hb & Hb0).
  destruct (strchr_split _ _ _ E3) as (r3 & Hd3 & _ & Hc & Hc0).
  assert (Hs : forall (s : list Ascii.ascii) i,
             skipn (i + 2) s = skipn 1 (skipn (i + 1) s)).
  { intros s i. rewrite skipn_skipn. f_equal. lia. }
  assert (Hr1 : exists x, r1 = x :: d2).
  { unfold d2 at 1. rewrite Hs, Hk1. destruct r1 as [| x r1'].
    - exfalso. unfold d2 in E2. rewrite Hs, Hk1 in E2. discriminate E2.
    - now exists x. }
  assert (Hr2 : exists y, r2 = y :: d3).
  { unfold d3 at 1. rewrite Hs, Hk2. destruct r2 as [| y r2'].
    - exfalso. unfold d3 in E3. rewrite Hs, Hk2 in E3. discriminate E3.
    - now exists y. }
  destruct Hr1 as [x Hr1]. destruct Hr2 as [y Hr2].
  exists (firstn 3 user_data), x, y, r3.
  split.
  { rewrite length_firstn. apply Nat.min_l.
    destruct (Nat.le_gt_cases 3 (length user_data)) as [Hle | Hgt];
      [exact Hle |].
    exfalso. unfold d1 in E1. rewrite skipn_all2 in E1 by lia.
    discriminate E1. }
  split; [| tauto].
  rewrite <- (firstn_skipn 3 user_data) at 1. f_equal. fold d1.
  rewrite Hd1 at 1. f_equal. f_equal. rewrite Hr1. f_equal.
  rewrite Hd2 at 1. f_equal. f_equal. rewrite Hr2. f_equal.
  exact Hd3.
Qed.

Lemma register_request_fields_witness :
  register_fields sample_request = Some sample_request_fields.
Proof.
  apply (register_request_fields
           (firstn 3 sample_request) blank blank
           (fst (fst sample_request_fields))
           (snd (fst sample_request_fields))
           (snd sample_request_fields) []);
    try reflexivity; vm_compute; intuition discriminate.
Defined.

Lemma register_request_shape_witness :
  exists h x y rest,
    length h = 3%nat /\
    sample_request_unspaced
    = h ++ fst (fst sample_request_unspaced_fields) ++ comma :: x ::
      snd (fst sample_request_unspaced_fields) ++ comma :: y ::
      snd sample_request_unspaced_fields ++ full_stop :: rest /\
    ~ In comma (fst (fst sample_request_unspaced_fields)) /\
    ~ In NUL (fst (fst sample_request_unspaced_fields)) /\
    ~ In comma (snd (fst sample_request_unspaced_fields)) /\
    ~ In NUL (snd (fst sample_request_unspaced_fields)) /\
    ~ In full_stop (snd sample_request_unspaced_fields) /\
    ~ In NUL (snd sample_request_unspaced_fields).
Proof.
  apply (register_request_shape sample_request_unspaced).
  vm_compute. reflexivity.
Defined.

Lemma status_file_unchanged_by_scheduling_witness :
  sample_exec Dispatcher task1_running_task2_released
    = Some task2_running_task1_preempted /\
  mp2_read_proc 4096 task2_running_task1_preempted
    = mp2_read_proc 4096 task1_running_task2_released.
Proof.
  assert (H : sample_exec Dispatcher task1_running_task2_released
              = Some task2_running_task1_preempted)
    by (vm_compute; reflexivity).
  split; [exact H |].
  exact (status_file_unchanged_by_scheduling 4096 sample_find_task_by_pid
           sample_msecs_to_jiffies sample_MAX_USER_RT_PRIO Dispatcher
           task1_running_task2_released task2_running_task1_preempted
           eq_refl H).
Defined.

Lemma registration_appends_one_status_entry_witness :
  exists s' page len,
    mp2_register_process sample_find_task_by_pid sample_msecs_to_jiffies
      4 100 10 three_tasks = Some s' /\
    mp2_read_proc 4096 three_tasks = Some (page, len) /\
    mp2_read_proc 4096 s'
    = Some (page ++ process_line 4 ++ pid_line 4 ++ period_line 100 ++
            computation_line 10, len + 38).
Proof.
  destruct (mp2_register_process sample_find_task_by_pid
              sample_msecs_to_jiffies 4 100 10 three_tasks)
    as [s' |] eqn:E1; [| vm_compute in E1; discriminate].
  destruct (mp2_read_proc 4096 three_tasks) as [[page len] |] eqn:E2;
    [| vm_compute in E2; discriminate].
  exists s', page, len. split; [reflexivity |]. split; [reflexivity |].
  rewrite (registration_appends_one_status_entry 4096
             sample_find_task_by_pid sample_msecs_to_jiffies
             4 100 10 5004 three_tasks s' page len eq_refl eq_refl E1 E2).
  vm_compute in E2. injection E2 as <- <-. vm_compute. reflexivity.
Defined.
